(** * Agency cross-sell analysis: classification and aggregation engine

    A shallow embedding of the data pipeline of [app.py]:
    header normalisation, the required-column check, the line-of-business
    filter, the per-customer classification at agency and carrier level,
    the per-division summary with its percentage columns, the view of a
    selected division and the row highlighting.

    Modelling conventions.
    - A spreadsheet cell is [option string]; [None] is an empty cell (pandas'
      NaN).  The five columns the program reads hold text.
    - A data frame is a list of rows, each tagged with its index label.
      [read_excel] numbers the rows 0, 1, 2, ...; filtering keeps labels.
    - [groupby] drops rows whose key is missing, as pandas does by default.
      pandas lists the groups in sorted key order; here they come in an order
      of appearance.  No statement below depends on the order of the groups.
    - With two or more groups, [groupby(...).apply(f)] is the concatenation
      of the series that [f] returns for the groups, and assigning a series
      to a column aligns it on the index labels: this is [apply],
      [add_account_types] and [load].  With a single group pandas returns a
      frame of one row instead, and with no group an empty frame; assigning
      such a frame to a column raises [ValueError] unless it has exactly one
      column, which is then aligned on the label 0.  [apply_groupwise],
      [classify_frame] and [run] model the program with these cases, and
      with the [ValueError] of a grouping or filtering column whose header
      occurs twice.
    - A column is read under the first header of its name.
    - The percentage columns are binary64 numbers, embedded as Rocq's
      primitive floats, so that division by zero and rounding behave as in
      the program.
    - Python's [str.strip] is modelled for the ASCII white space characters;
      statements about [strip] that need more say so in their hypotheses. *)

From Stdlib Require Import ZArith Uint63 Floats.
From stdpp Require Import gmap strings list.

Local Open Scope string_scope.

(** ** Tables as read from the spreadsheet *)

Abbreviation cell := (option string).

Record Table : Type := {
  headers : list string;
  body : list (list cell)
}.

(** Rows with their index labels. *)
Abbreviation Frame A := (list (nat * A)).

(** A series: values with their index labels. *)
Abbreviation Series B := (list (nat * B)).

(** ** Schema normaliser *)

(** White space as [str.isspace] sees it on ASCII characters. *)
Definition is_space (a : Ascii.ascii) : bool :=
  let n := Ascii.nat_of_ascii a in
  (((9 <=? n) && (n <=? 13)) || ((28 <=? n) && (n <=? 32)))%nat.

Fixpoint lstrip (s : string) : string :=
  match s with
  | String a s' => if is_space a then lstrip s' else s
  | EmptyString => EmptyString
  end.

Fixpoint rstrip (s : string) : string :=
  match s with
  | EmptyString => EmptyString
  | String a s' =>
      match rstrip s' with
      | EmptyString => if is_space a then EmptyString else String a EmptyString
      | r => String a r
      end
  end.

(** [df.columns.str.strip()] on one header. *)
Definition strip (s : string) : string := rstrip (lstrip s).

(** The alias table, in the order the program scans it. *)
Definition column_map : list (string * list string) :=
  [ ("Division", ["Division"; "Agency"; "Agency Name"; "Policy Division"]);
    ("Customer Name", ["Customer Name"; "Client Name"]);
    ("Line of Business/Non-Premium",
       ["Line of Business/Non-Premium"; "Line of Business"]);
    ("Carrier", ["Carrier"; "Parent Company"]);
    ("Policy Number", ["Policy Number"]) ].

(** [df.rename(columns={col: std_col})]: every header equal to [col] is
    replaced. *)
Definition rename (col std_col : string) (cols : list string) : list string :=
  (λ c, if decide (c = col) then std_col else c) <$> cols.

(** The inner loop: the first variant found among the headers is renamed and
    the scan stops. *)
Fixpoint rename_first (std_col : string) (variants cols : list string)
  : list string :=
  match variants with
  | [] => cols
  | col :: rest =>
      if decide (col ∈ cols) then rename col std_col cols
      else rename_first std_col rest cols
  end.

(** The outer loop over [column_map.items()]; each step sees the headers as
    the previous steps left them. *)
Definition normalize_columns (cols : list string) : list string :=
  foldl (λ cs m, rename_first m.1 m.2 cs) cols column_map.

Definition required_cols : list string :=
  [ "Division"; "Customer Name"; "Line of Business/Non-Premium";
    "Carrier"; "Policy Number" ].

(** [all(col in df.columns for col in required_cols)] *)
Definition has_required (cols : list string) : bool :=
  forallb (λ col, bool_decide (col ∈ cols)) required_cols.

(** ** Policy records *)

Record PolicyRecord : Type := {
  division : cell;
  customerName : cell;
  lineOfBusiness : cell;
  carrier : cell;
  policyNumber : cell
}.

Global Instance PolicyRecord_eq_dec : EqDecision PolicyRecord.
Proof. solve_decision. Defined.

(** Position of the first header equal to [name]. *)
Fixpoint col_pos (name : string) (cols : list string) : option nat :=
  match cols with
  | [] => None
  | c :: cols' => if decide (c = name) then Some 0%nat else S <$> col_pos name cols'
  end.

(** [row[name]]: the cell under header [name]; a row shorter than the header
    line is padded with empty cells. *)
Definition get (cols : list string) (name : string) (row : list cell) : cell :=
  match col_pos name cols with
  | Some i => default None (row !! i)
  | None => None
  end.

Definition to_record (cols : list string) (row : list cell) : PolicyRecord :=
  {| division := get cols "Division" row;
     customerName := get cols "Customer Name" row;
     lineOfBusiness := get cols "Line of Business/Non-Premium" row;
     carrier := get cols "Carrier" row;
     policyNumber := get cols "Policy Number" row |}.

(** The default index of a freshly read frame: 0, 1, 2, ... *)
Definition range_index {A} (rows : list A) : Frame A :=
  zip (seq 0%nat (length rows)) rows.

(** ** Line-of-business filter *)

Definition lob_allow : list string :=
  [ "Homeowners"; "Private Passenger Auto"; "Mobile Homeowners" ].

(** [Series.isin(values)] on one cell: exact string equality, an empty cell
    is never in. *)
Definition isin (c : cell) (values : list string) : bool :=
  match c with
  | Some s => bool_decide (s ∈ values)
  | None => false
  end.

Definition lob_filter (df : Frame PolicyRecord) : Frame PolicyRecord :=
  filter (λ ir, isin (lineOfBusiness ir.2) lob_allow) df.

(** The three retained lines, spelled out. *)
Definition one_of_three_lines (c : cell) : Prop :=
  c = Some "Homeowners" ∨ c = Some "Private Passenger Auto"
  ∨ c = Some "Mobile Homeowners".

(** A frame with every row of customer [k] deleted. *)
Definition without_customer (k : string) (df : Frame PolicyRecord)
  : Frame PolicyRecord :=
  filter (λ ir, customerName ir.2 ≠ Some k) df.

(** ** Grouping *)

Section groupby.
Context {A : Type}.
Variable key : A → cell.

(** The distinct keys present; rows with a missing key form no group. *)
Definition group_keys (df : Frame A) : list string :=
  remove_dups (omap (λ ir, key ir.2) df).

Definition get_group (k : string) (df : Frame A) : Frame A :=
  filter (λ ir, key ir.2 = Some k) df.

Definition groupby (df : Frame A) : list (string * Frame A) :=
  (λ k, (k, get_group k df)) <$> group_keys df.
End groupby.

(** [groupby(...).apply(f).reset_index(level=0, drop=True)] on two or more
    groups: the series the groups return, concatenated, indexed by the
    original row labels.  [apply_groupwise] below adds what pandas returns
    for one group and for none. *)
Definition apply {A B} (f : Frame A → Series B) (groups : list (string * Frame A))
  : Series B :=
  groups ≫= (λ kg, f kg.2).

(** [pd.Series([v] * len(group), index=group.index)] *)
Definition const_series {A B} (v : B) (group : Frame A) : Series B :=
  zip (group.*1) (replicate (length group) v).

(** ** Customer classifier *)

Definition Cross_Sold_s : string := "Cross-Sold".
Definition Monoline_s : string := "Monoline".

(** [set(group["Line of Business/Non-Premium"])] *)
Definition lob_set (group : Frame PolicyRecord) : gset cell :=
  list_to_set ((λ ir, lineOfBusiness ir.2) <$> group).

Definition classify (group : Frame PolicyRecord) : Series string :=
  let types := lob_set group in
  const_series (if decide (1 < size types)%nat then Cross_Sold_s else Monoline_s) group.

Definition classify_carrier (group : Frame PolicyRecord) : Series string :=
  let lines_by_carrier := (λ cg, lob_set cg.2) <$> groupby carrier group in
  const_series
    (if existsb (λ lines : gset cell, bool_decide (1 < size lines)%nat) lines_by_carrier
     then Cross_Sold_s else Monoline_s)
    group.

(** The values the two classifiers broadcast over a group. *)
Definition account_type_of (group : Frame PolicyRecord) : string :=
  if decide (1 < size (lob_set group))%nat then Cross_Sold_s else Monoline_s.

Definition carrier_account_type_of (group : Frame PolicyRecord) : string :=
  if existsb (λ lines : gset cell, bool_decide (1 < size lines)%nat)
       ((λ cg, lob_set cg.2) <$> groupby carrier group)
  then Cross_Sold_s else Monoline_s.

Record ClassifiedRecord : Type := {
  policy : PolicyRecord;
  accountType : option string;
  carrierAccountType : option string
}.

(** Column assignment [df[name] = series]: each row takes the value the
    series has at the row's index label, and nothing (NaN) when the series
    has no such label. *)
Definition at_label {B} (s : Series B) (i : nat) : option B :=
  (list_to_map s : gmap nat B) !! i.

Definition add_account_types (df : Frame PolicyRecord) : Frame ClassifiedRecord :=
  let account := apply classify (groupby customerName df) in
  let carrier_account := apply classify_carrier (groupby customerName df) in
  (λ ir, (ir.1, {| policy := ir.2;
                   accountType := at_label account ir.1;
                   carrierAccountType := at_label carrier_account ir.1 |})) <$> df.

(** The classified row of a policy record of the frame [df]. *)
Definition classified_in (df : Frame PolicyRecord) (r : PolicyRecord)
  : ClassifiedRecord :=
  {| policy := r;
     accountType :=
       (λ k, account_type_of (get_group customerName k df)) <$> customerName r;
     carrierAccountType :=
       (λ k, carrier_account_type_of (get_group customerName k df))
         <$> customerName r |}.

(** ** Binary64 arithmetic of the percentage columns *)

Module Float64.
Import PrimFloat.
Local Open Scope float_scope.

(** An [int64] count converted to [float64] by true division. *)
Definition of_count (n : nat) : float := of_uint63 (Uint63.of_Z (Z.of_nat n)).

Definition two52 : float := 4503599627370496.

(** [numpy.rint]: round to the nearest integer, ties to even.  Below 2^52
    in magnitude, adding and subtracting 2^52 rounds to an integer;
    from there on every binary64 number is an integer. *)
Definition rint (x : float) : float :=
  if abs x <? two52 then
    if x <? 0 then - ((- x + two52) - two52)
    else if 0 <? x then (x + two52) - two52
    else x
  else x.

(** [Series.round(2)], which numpy computes as [rint(x * 100) / 100]. *)
Definition round2 (x : float) : float := rint (x * 100) / 100.

(** [(Monoline / Total_Clients * 100).round(2)] *)
Definition pct_monoline (monoline total_clients : nat) : float :=
  round2 (of_count monoline / of_count total_clients * 100).

(** [100 - agency_summary["% Monoline"]] *)
Definition pct_cross_sold (pct_mono : float) : float := 100 - pct_mono.

(** The carrier table's percentage, before it is printed with one decimal:
    [count / total_clients * 100 if total_clients else 0.0]. *)
Definition carrier_pct (count total_clients : nat) : float :=
  match total_clients with
  | O => 0
  | _ => of_count count / of_count total_clients * 100
  end.
End Float64.

(** ** Agency aggregator *)

Record SummaryRow : Type := {
  Division : string;
  Total_Clients : nat;
  Monoline : nat;
  Cross_Sold : nat;
  pct_Monoline : float;
  pct_Cross_Sold : float
}.

(** [Series.nunique()]: the number of distinct values, empty cells not
    counted. *)
Definition nunique (values : list cell) : nat :=
  size (list_to_set (omap id values) : gset string).

(** [(x == v).sum()]: the number of rows whose value is [v]. *)
Definition count_eq (v : string) (values : list (option string)) : nat :=
  length (filter (λ x, x = Some v) values).

Definition summarise (d : string) (g : Frame ClassifiedRecord) : SummaryRow :=
  let total := nunique ((λ ir, customerName (policy ir.2)) <$> g) in
  let mono := count_eq Monoline_s ((λ ir, accountType ir.2) <$> g) in
  let cross := count_eq Cross_Sold_s ((λ ir, accountType ir.2) <$> g) in
  let pm := Float64.pct_monoline mono total in
  {| Division := d; Total_Clients := total; Monoline := mono; Cross_Sold := cross;
     pct_Monoline := pm; pct_Cross_Sold := Float64.pct_cross_sold pm |}.

Definition agency_summary (df : Frame ClassifiedRecord) : list SummaryRow :=
  (λ dg, summarise dg.1 dg.2) <$> groupby (λ c, division (policy c)) df.

(** ** The view of one selected division *)

(** [df[df["Division"] == selected_agency]] *)
Definition agency_df (selected_agency : string) (df : Frame ClassifiedRecord)
  : Frame ClassifiedRecord :=
  filter (λ ir, division (policy ir.2) = Some selected_agency) df.

(** [GroupBy.first()] on one group: the first value that is not missing. *)
Fixpoint first_valid {B} (values : list (option B)) : option B :=
  match values with
  | [] => None
  | Some v :: _ => Some v
  | None :: rest => first_valid rest
  end.

(** [agency_df.groupby("Customer Name")[col].first()] *)
Definition first_per_customer (col : ClassifiedRecord → option string)
    (adf : Frame ClassifiedRecord) : list (option string) :=
  (λ kg, first_valid ((λ ir, col ir.2) <$> kg.2))
    <$> groupby (λ c, customerName (policy c)) adf.

(** [agency_df["Customer Name"].nunique()] *)
Definition total_clients (adf : Frame ClassifiedRecord) : nat :=
  nunique ((λ ir, customerName (policy ir.2)) <$> adf).

(** [....value_counts().get(v, 0)] *)
Definition total_monoline (adf : Frame ClassifiedRecord) : nat :=
  count_eq Monoline_s (first_per_customer accountType adf).
Definition total_cross_sold (adf : Frame ClassifiedRecord) : nat :=
  count_eq Cross_Sold_s (first_per_customer accountType adf).
Definition total_carrier_mono (adf : Frame ClassifiedRecord) : nat :=
  count_eq Monoline_s (first_per_customer carrierAccountType adf).
Definition total_carrier_cross (adf : Frame ClassifiedRecord) : nat :=
  count_eq Cross_Sold_s (first_per_customer carrierAccountType adf).

(** ** The whole load *)

Inductive Outcome : Type :=
  | Rejected (message : string)
  | Loaded (df : Frame ClassifiedRecord) (summary : list SummaryRow).

Definition missing_message : string := "Missing one or more required columns.".

(** The filtered working set the classifier sees. *)
Definition working_set (records : list PolicyRecord) : Frame PolicyRecord :=
  lob_filter (range_index records).

(** The records of a table under its normalised headers. *)
Definition records_of (t : Table) : list PolicyRecord :=
  to_record (normalize_columns (strip <$> headers t)) <$> body t.

(** Lines 61 to 105 on a table whose working set holds two or more customers
    and whose filtering and grouping columns are unambiguous.  [run] below
    is the program on every table. *)
Definition load (t : Table) : Outcome :=
  let cols := normalize_columns (strip <$> headers t) in
  if has_required cols then
    let df := add_account_types (working_set (records_of t)) in
    Loaded df (agency_summary df)
  else Rejected missing_message.

(** ** Sample data *)

Definition record (d c l k p : string) : PolicyRecord :=
  {| division := Some d; customerName := Some c; lineOfBusiness := Some l;
     carrier := Some k; policyNumber := Some p |}.

(** Alice holds two lines, each with a different carrier. *)
Definition two_carriers : list PolicyRecord :=
  [ record "North" "Alice" "Homeowners" "CarrierA" "P1";
    record "North" "Alice" "Private Passenger Auto" "CarrierB" "P2";
    record "North" "Bob" "Homeowners" "CarrierA" "P3" ].


(** A spreadsheet with alias headers, one of them padded with blanks. *)
Definition sample_table : Table :=
  {| headers := [" Agency"; "Client Name"; "Line of Business";
                 "Parent Company "; "Policy Number"];
     body :=
       [ [Some "North"; Some "Alice"; Some "Homeowners"; Some "CarrierA"; Some "P1"];
         [Some "North"; Some "Alice"; Some "Private Passenger Auto";
          Some "CarrierA"; Some "P2"];
         [Some "North"; Some "Bob"; Some "Homeowners"; Some "CarrierB"; Some "P3"];
         [Some "South"; Some "Cara"; Some "Boat"; Some "CarrierB"; Some "P4"] ] |}.

Definition alice_home : ClassifiedRecord :=
  {| policy := record "North" "Alice" "Homeowners" "CarrierA" "P1";
     accountType := Some "Cross-Sold"; carrierAccountType := Some "Cross-Sold" |}.


(** Canonical headers; Alice holds two lines, Bob one. *)
Definition two_customers_table : Table :=
  {| headers := required_cols;
     body :=
       [ [Some "North"; Some "Alice"; Some "Homeowners"; Some "CarrierA"; Some "P1"];
         [Some "North"; Some "Alice"; Some "Private Passenger Auto";
          Some "CarrierA"; Some "P2"];
         [Some "North"; Some "Bob"; Some "Homeowners"; Some "CarrierB"; Some "P3"] ] |}.

(** Canonical headers; Alice holds two policies of one line, Bob one. *)
Definition duplicate_policy_table : Table :=
  {| headers := required_cols;
     body :=
       [ [Some "North"; Some "Alice"; Some "Homeowners"; Some "CarrierA"; Some "P1"];
         [Some "North"; Some "Alice"; Some "Homeowners"; Some "CarrierA"; Some "P2"];
         [Some "North"; Some "Bob"; Some "Homeowners"; Some "CarrierB"; Some "P3"] ] |}.

(** Canonical headers; the only row of division West has an empty customer
    name cell. *)
Definition blank_name_table : Table :=
  {| headers := required_cols;
     body :=
       [ [Some "East"; Some "Alice"; Some "Homeowners"; Some "CarrierA"; Some "P1"];
         [Some "East"; Some "Bob"; Some "Homeowners"; Some "CarrierB"; Some "P2"];
         [Some "East"; Some "Bob"; Some "Private Passenger Auto";
          Some "CarrierB"; Some "P3"];
         [Some "West"; None; Some "Homeowners"; Some "CarrierA"; Some "P4"] ] |}.

(** Division North with ten clients: seven hold one line, three hold a second
    line that is booked in division South. *)
Definition ten_clients : list PolicyRecord :=
  [ record "North" "M1" "Homeowners" "CarrierA" "P01";
    record "North" "M2" "Homeowners" "CarrierA" "P02";
    record "North" "M3" "Homeowners" "CarrierA" "P03";
    record "North" "M4" "Private Passenger Auto" "CarrierA" "P04";
    record "North" "M5" "Private Passenger Auto" "CarrierB" "P05";
    record "North" "M6" "Mobile Homeowners" "CarrierB" "P06";
    record "North" "M7" "Mobile Homeowners" "CarrierB" "P07";
    record "North" "X1" "Homeowners" "CarrierA" "P08";
    record "North" "X2" "Homeowners" "CarrierA" "P09";
    record "North" "X3" "Homeowners" "CarrierB" "P10";
    record "South" "X1" "Private Passenger Auto" "CarrierA" "P11";
    record "South" "X2" "Private Passenger Auto" "CarrierB" "P12";
    record "South" "X3" "Mobile Homeowners" "CarrierB" "P13" ].

(** The summary row of division North for [ten_clients]. *)
Definition north_of_ten : SummaryRow :=
  {| Division := "North"; Total_Clients := 10; Monoline := 7; Cross_Sold := 3;
     pct_Monoline := 70%float; pct_Cross_Sold := 30%float |}.

(** The two percentages of a summary row with the given counts add up to
    exactly 100 in binary64. *)
Definition sums_to_100 (monoline total_clients : nat) : bool :=
  PrimFloat.Leibniz.eqb
    (Float64.pct_monoline monoline total_clients
     + Float64.pct_cross_sold (Float64.pct_monoline monoline total_clients))%float
    100%float.

(** No policy number column under any of its names. *)
Definition no_policy_number_table : Table :=
  {| headers := ["Division"; "Customer Name"; "Line of Business"; "Carrier"];
     body :=
       [ [Some "North"; Some "Alice"; Some "Homeowners"; Some "CarrierA"] ] |}.

(** The required columns that are absent after alias mapping. *)
Definition missing_fields (t : Table) : list string :=
  filter (λ col, col ∉ normalize_columns (strip <$> headers t)) required_cols.

(** A message names a field when the field's name occurs in it. *)
Definition names_field (message field : string) : Prop :=
  is_Some (String.index 0 field message).

(** The rejection as the specification words it: the error names every
    missing field. *)
Definition rejection_names_missing_fields (t : Table) : Prop :=
  ∃ message, load t = Rejected message ∧
             ∀ field, field ∈ missing_fields t → names_field message field.

(** ** Row highlighting *)

(** [highlight_cross(row)] of the on-screen table: one style per cell of the
    row, and the table shows six columns. *)
Definition highlight_cross (row : ClassifiedRecord) : list string :=
  if decide (accountType row = Some Cross_Sold_s
             ∧ carrierAccountType row = Some Cross_Sold_s)
  then replicate 6 "background-color: lightgreen"
  else if decide (accountType row = Some Cross_Sold_s
                  ∨ carrierAccountType row = Some Cross_Sold_s)
  then replicate 6 "background-color: khaki"
  else replicate 6 "".

(** The entry the report appends to [highlight_rows] for a row; the legend
    of the report explains green as cross-sold with carrier and agency and
    yellow as cross-sold with the agency only. *)
Definition highlight_row (row : ClassifiedRecord) : option string :=
  if decide (accountType row = Some Cross_Sold_s
             ∧ carrierAccountType row = Some Cross_Sold_s)
  then Some "green"
  else if decide (accountType row = Some Cross_Sold_s
                  ∨ carrierAccountType row = Some Cross_Sold_s)
  then Some "yellow"
  else None.

(** ** White space at the ends of a string *)

Definition starts_with_space (s : string) : bool :=
  match s with
  | String a _ => is_space a
  | EmptyString => false
  end.

Fixpoint ends_with_space (s : string) : bool :=
  match s with
  | EmptyString => false
  | String a EmptyString => is_space a
  | String _ s' => ends_with_space s'
  end.

Fixpoint all_space (s : string) : bool :=
  match s with
  | EmptyString => true
  | String a s' => is_space a && all_space s'
  end.

(** Every character of the string is an ASCII character. *)
Fixpoint all_ascii (s : string) : bool :=
  match s with
  | EmptyString => true
  | String a s' => (Ascii.nat_of_ascii a <? 128)%nat && all_ascii s'
  end.

(** ** The program on every table *)

(** What [groupby(...).apply(f).reset_index(level=0, drop=True)] hands back.
    pandas concatenates the groups' series only when their indexes differ,
    which they do as soon as there are two groups. *)
Inductive Applied (B : Type) : Type :=
  | NoGroup
      (* no group: an empty frame that has the columns of the grouped frame *)
  | OneGroup (values : Series B)
      (* one group: a frame of one row, labelled 0 after [reset_index], with
         one column for every label of the group *)
  | Groups (s : Series B).
      (* two or more groups: the series, concatenated *)
Arguments NoGroup {B}.
Arguments OneGroup {B} values.
Arguments Groups {B} s.

Definition apply_groupwise {A B} (f : Frame A → Series B)
    (groups : list (string * Frame A)) : Applied B :=
  match groups with
  | [] => NoGroup
  | [kg] => OneGroup (f kg.2)
  | _ => Groups (apply f groups)
  end.

(** The series that [df[name] = value] aligns on the labels of [df], or
    [None] when the assignment raises [ValueError].  A frame is accepted as
    a column only if it has exactly one column, and that column is a series
    with the single label 0. *)
Definition assigned {B} (value : Applied B) : option (Series B) :=
  match value with
  | Groups s => Some s
  | OneGroup [(_, v)] => Some [(0%nat, v)]
  | OneGroup _ => None
  | NoGroup => None
  end.

(** Lines 96 and 97 on any frame. *)
Definition classify_frame (df : Frame PolicyRecord)
  : option (Frame ClassifiedRecord) :=
  match assigned (apply_groupwise classify (groupby customerName df)),
        assigned (apply_groupwise classify_carrier (groupby customerName df)) with
  | Some account, Some carrier_account =>
      Some ((λ ir, (ir.1, {| policy := ir.2;
                             accountType := at_label account ir.1;
                             carrierAccountType := at_label carrier_account ir.1 |}))
              <$> df)
  | _, _ => None
  end.

(** The columns the program filters or groups by (lines 82, 96, 97 and 99).
    Selecting one of them when its header occurs twice yields a frame, not a
    column, and the filter or the grouping raises [ValueError]. *)
Definition used_cols : list string :=
  [ "Line of Business/Non-Premium"; "Customer Name"; "Carrier"; "Division" ].

Definition ambiguous (cols : list string) : bool :=
  existsb (λ col, bool_decide (1 < length (filter (λ c, c = col) cols))%nat)
    used_cols.

Inductive Result : Type :=
  | Error (message : string)
      (* the message of line 80; nothing else is computed *)
  | ValueError
      (* an exception ends the script *)
  | Ok (df : Frame ClassifiedRecord) (summary : list SummaryRow).

(** Lines 61 to 105. *)
Definition run (t : Table) : Result :=
  let cols := normalize_columns (strip <$> headers t) in
  if has_required cols then
    if ambiguous cols then ValueError
    else
      match classify_frame (working_set (records_of t)) with
      | Some df => Ok df (agency_summary df)
      | None => ValueError
      end
  else Error missing_message.

(** The classified frame holds rows of two different customers. *)
Definition two_customers (df : Frame ClassifiedRecord) : Prop :=
  ∃ i1 c1 k1 i2 c2 k2,
    (i1, c1) ∈ df ∧ (i2, c2) ∈ df ∧
    customerName (policy c1) = Some k1 ∧ customerName (policy c2) = Some k2 ∧
    k1 ≠ k2.

(** Alice is the only customer left by the filter, on the second row. *)
Definition sole_customer_table : Table :=
  {| headers := required_cols;
     body :=
       [ [Some "North"; Some "Cara"; Some "Boat"; Some "CarrierA"; Some "P1"];
         [Some "North"; Some "Alice"; Some "Homeowners"; Some "CarrierA"; Some "P2"] ] |}.

(** Alice is the only customer, with two lines at two carriers. *)
Definition sole_customer_two_lines_table : Table :=
  {| headers := required_cols;
     body :=
       [ [Some "North"; Some "Alice"; Some "Homeowners"; Some "CarrierA"; Some "P1"];
         [Some "North"; Some "Alice"; Some "Private Passenger Auto";
          Some "CarrierB"; Some "P2"] ] |}.

(** Alice holds two lines at two carriers; Bob is a second customer. *)
Definition two_carriers_table : Table :=
  {| headers := required_cols;
     body :=
       [ [Some "North"; Some "Alice"; Some "Homeowners"; Some "CarrierA"; Some "P1"];
         [Some "North"; Some "Alice"; Some "Private Passenger Auto";
          Some "CarrierB"; Some "P2"];
         [Some "North"; Some "Bob"; Some "Homeowners"; Some "CarrierA"; Some "P3"] ] |}.

(** * Properties *)

(** ** Index labels *)

Lemma range_index_labels {A} (rows : list A) :
  (range_index rows).*1 = seq 0%nat (length rows).
Proof. unfold range_index. apply fst_zip. rewrite length_seq. done. Qed.

Lemma range_index_NoDup {A} (rows : list A) : NoDup ((range_index rows).*1).
Proof. rewrite range_index_labels. apply NoDup_seq. Qed.

Lemma filter_labels_NoDup {A} (P : nat * A → Prop) `{!∀ x, Decision (P x)}
    (df : Frame A) :
  NoDup (df.*1) → NoDup ((filter P df).*1).
Proof.
  intros Hnd. apply (sublist_NoDup _ (df.*1)); [exact Hnd|].
  apply fmap_sublist. by apply sublist_filter.
Qed.

Lemma working_set_NoDup records : NoDup ((working_set records).*1).
Proof. apply filter_labels_NoDup, range_index_NoDup. Qed.

(** With distinct labels, a label determines its row. *)
Lemma label_determines_row {A} (df : Frame A) i (r r' : A) :
  NoDup (df.*1) → (i, r) ∈ df → (i, r') ∈ df → r = r'.
Proof.
  intros Hnd Hr Hr'.
  induction df as [|[j x] df IH]; [by apply elem_of_nil in Hr|].
  simpl in Hnd. apply NoDup_cons in Hnd as [Hj Hnd].
  apply elem_of_cons in Hr as [Hr|Hr]; apply elem_of_cons in Hr' as [Hr'|Hr'].
  - congruence.
  - injection Hr as -> ->. exfalso. apply Hj.
    apply list_elem_of_fmap. by exists (j, r').
  - injection Hr' as -> ->. exfalso. apply Hj.
    apply list_elem_of_fmap. by exists (j, r).
  - by apply IH.
Qed.

(** ** Series and column assignment *)

Lemma const_series_fmap {A B} (v : B) (group : Frame A) :
  const_series v group = (λ ir, (ir.1, v)) <$> group.
Proof.
  unfold const_series. induction group as [|[i r] g IH]; [done|].
  simpl. f_equal. exact IH.
Qed.

Lemma elem_of_const_series {A B} (v v' : B) (group : Frame A) i :
  (i, v') ∈ const_series v group ↔ i ∈ group.*1 ∧ v' = v.
Proof.
  rewrite const_series_fmap, !list_elem_of_fmap. split.
  - intros [[j r] [Heq Hin]]. simpl in Heq. injection Heq as -> ->.
    split; [|done]. by exists (j, r).
  - intros [[[j r] [-> Hin]] ->]. by exists (j, r).
Qed.

Lemma at_label_unique {B} (s : Series B) i v :
  (i, v) ∈ s → (∀ v', (i, v') ∈ s → v' = v) → at_label s i = Some v.
Proof.
  unfold at_label. intros Hin Huniq.
  apply elem_of_list_to_map_1'; [|done].
  intros y Hy. symmetry. by apply Huniq.
Qed.

Lemma at_label_absent {B} (s : Series B) i :
  (∀ v, (i, v) ∉ s) → at_label s i = None.
Proof.
  unfold at_label. intros Hno. apply not_elem_of_list_to_map_1.
  intros [[j v] [Hj Hin]]%list_elem_of_fmap. simpl in Hj. subst j.
  by apply (Hno v).
Qed.

(** ** Grouping and broadcasting *)

Lemma classify_broadcasts (group : Frame PolicyRecord) :
  classify group = const_series (account_type_of group) group.
Proof. reflexivity. Qed.

Lemma classify_carrier_broadcasts (group : Frame PolicyRecord) :
  classify_carrier group = const_series (carrier_account_type_of group) group.
Proof. reflexivity. Qed.

Section groupby_facts.
Context {A : Type} (key : A → cell).

Lemma elem_of_get_group k (df : Frame A) ir :
  ir ∈ get_group key k df ↔ ir ∈ df ∧ key ir.2 = Some k.
Proof. unfold get_group. rewrite list_elem_of_filter. tauto. Qed.

Lemma elem_of_group_keys k (df : Frame A) :
  k ∈ group_keys key df ↔ ∃ ir, ir ∈ df ∧ key ir.2 = Some k.
Proof. unfold group_keys. by rewrite elem_of_remove_dups, list_elem_of_omap. Qed.

Lemma elem_of_groupby k g (df : Frame A) :
  (k, g) ∈ groupby key df ↔ g = get_group key k df ∧ k ∈ group_keys key df.
Proof.
  unfold groupby. rewrite list_elem_of_fmap. split.
  - intros [k' [Heq Hk']]. injection Heq as -> ->. done.
  - intros [-> Hk]. by exists k.
Qed.

Lemma elem_of_apply_const {B} (lbl : Frame A → B) (df : Frame A) i v :
  (i, v) ∈ apply (λ g, const_series (lbl g) g) (groupby key df) ↔
  ∃ r k, (i, r) ∈ df ∧ key r = Some k ∧ v = lbl (get_group key k df).
Proof.
  unfold apply. rewrite list_elem_of_bind. split.
  - intros [[k g] [Hin [-> Hk]%elem_of_groupby]]. simpl in Hin.
    apply elem_of_const_series in Hin as [Hi ->].
    apply list_elem_of_fmap in Hi as [[j r] [-> Hjr]].
    apply elem_of_get_group in Hjr as [Hjr Hkey]. by exists r, k.
  - intros (r & k & Hir & Hkey & ->).
    exists (k, get_group key k df). split.
    + simpl. apply elem_of_const_series. split; [|done].
      apply list_elem_of_fmap. exists (i, r). split; [done|].
      by apply elem_of_get_group.
    + apply elem_of_groupby. split; [done|].
      apply elem_of_group_keys. by exists (i, r).
Qed.

(** Every row receives the value computed for its own group, and a row
    whose key is missing receives nothing. *)
Lemma broadcast_at_label {B} (lbl : Frame A → B) (df : Frame A) i r :
  NoDup (df.*1) → (i, r) ∈ df →
  at_label (apply (λ g, const_series (lbl g) g) (groupby key df)) i
  = (λ k, lbl (get_group key k df)) <$> key r.
Proof.
  intros Hnd Hir. destruct (key r) as [k|] eqn:Hkey; simpl.
  - apply at_label_unique.
    + apply elem_of_apply_const. by exists r, k.
    + intros v' (r' & k' & Hir' & Hkey' & ->)%elem_of_apply_const.
      assert (r' = r) as -> by eauto using label_determines_row.
      congruence.
  - apply at_label_absent.
    intros v (r' & k' & Hir' & Hkey' & ->)%elem_of_apply_const.
    assert (r' = r) as -> by eauto using label_determines_row.
    congruence.
Qed.
End groupby_facts.

Lemma elem_of_add_account_types (df : Frame PolicyRecord) i c :
  NoDup (df.*1) →
  (i, c) ∈ add_account_types df ↔ ∃ r, (i, r) ∈ df ∧ c = classified_in df r.
Proof.
  intros Hnd. unfold add_account_types. rewrite list_elem_of_fmap. split.
  - intros [[j r] [Heq Hjr]]. simpl in Heq. injection Heq as -> ->.
    exists r. split; [done|]. unfold classified_in. f_equal.
    + by apply (broadcast_at_label customerName account_type_of).
    + by apply (broadcast_at_label customerName carrier_account_type_of).
  - intros [r [Hir ->]]. exists (i, r). split; [|done]. simpl.
    unfold classified_in. do 2 f_equal.
    + symmetry. by apply (broadcast_at_label customerName account_type_of).
    + symmetry.
      by apply (broadcast_at_label customerName carrier_account_type_of).
Qed.

(** ** Sets of lines of business *)

Lemma size_gt_1_iff (X : gset cell) :
  (1 < size X)%nat ↔ ∃ x y, x ∈ X ∧ y ∈ X ∧ x ≠ y.
Proof.
  split.
  - intros Hsz.
    destruct (size_pos_elem_of X) as [x Hx]; [lia|].
    exists x.
    destruct (decide (X ∖ {[x]} = ∅)) as [Hempty|Hne].
    + assert (X ≡ {[x]}) as HX.
      { apply set_equiv. intros z. rewrite elem_of_singleton. split.
        - intros Hz. destruct (decide (z = x)) as [|Hzx]; [done|].
          assert (z ∈ X ∖ {[x]}) as Hz'.
          { apply elem_of_difference. by rewrite elem_of_singleton. }
          rewrite Hempty in Hz'. by apply not_elem_of_empty in Hz'.
        - by intros ->. }
      rewrite HX, size_singleton in Hsz. lia.
    + apply set_choose_L in Hne as [y Hy].
      apply elem_of_difference in Hy as [Hy Hyx].
      rewrite elem_of_singleton in Hyx. exists y. auto.
  - intros (x & y & Hx & Hy & Hxy).
    assert (({[x]} ∪ {[y]} : gset cell) ⊆ X) as Hsub.
    { intros z [->%elem_of_singleton| ->%elem_of_singleton]%elem_of_union; done. }
    apply subseteq_size in Hsub.
    rewrite size_union in Hsub by (by apply disjoint_singleton_l, not_elem_of_singleton).
    rewrite !size_singleton in Hsub. lia.
Qed.

Lemma elem_of_lob_set (group : Frame PolicyRecord) c :
  c ∈ lob_set group ↔ ∃ ir, ir ∈ group ∧ lineOfBusiness ir.2 = c.
Proof.
  unfold lob_set. rewrite elem_of_list_to_set, list_elem_of_fmap.
  split; intros [ir [? ?]]; by exists ir.
Qed.

Lemma lob_set_mono (g g' : Frame PolicyRecord) :
  (∀ ir, ir ∈ g → ir ∈ g') → lob_set g ⊆ lob_set g'.
Proof.
  intros Hsub c [ir [Hin Hc]]%elem_of_lob_set.
  apply elem_of_lob_set. exists ir. auto.
Qed.

Lemma lob_set_nonempty (g : Frame PolicyRecord) ir :
  ir ∈ g → (1 ≤ size (lob_set g))%nat.
Proof.
  intros Hin.
  assert (({[lineOfBusiness ir.2]} : gset cell) ⊆ lob_set g) as Hsub.
  { apply singleton_subseteq_l, elem_of_lob_set. by exists ir. }
  apply subseteq_size in Hsub. by rewrite size_singleton in Hsub.
Qed.

Lemma labels_differ : Cross_Sold_s ≠ Monoline_s.
Proof. discriminate. Qed.

Lemma account_type_of_cross (g : Frame PolicyRecord) :
  account_type_of g = Cross_Sold_s ↔ (1 < size (lob_set g))%nat.
Proof.
  unfold account_type_of. case_decide; [done|].
  split; [intros Heq; by destruct labels_differ|done].
Qed.

Lemma account_type_of_cases (g : Frame PolicyRecord) :
  account_type_of g = Cross_Sold_s ∨ account_type_of g = Monoline_s.
Proof. unfold account_type_of. case_decide; auto. Qed.

Lemma carrier_account_type_of_cross (g : Frame PolicyRecord) :
  carrier_account_type_of g = Cross_Sold_s ↔
  ∃ cr, (1 < size (lob_set (get_group carrier cr g)))%nat.
Proof.
  unfold carrier_account_type_of.
  set (sets := (λ cg, lob_set cg.2) <$> groupby carrier g).
  assert (existsb (λ lines : gset cell, bool_decide (1 < size lines)%nat) sets = true
          ↔ ∃ cr, (1 < size (lob_set (get_group carrier cr g)))%nat) as Hex.
  { rewrite existsb_exists. split.
    - intros [X [HX Hsz]]. apply bool_decide_eq_true in Hsz.
      apply list_elem_of_In in HX. unfold sets in HX.
      apply list_elem_of_fmap in HX as [[cr g'] [-> Hin]].
      apply elem_of_groupby in Hin as [-> _]. by exists cr.
    - intros [cr Hsz]. exists (lob_set (get_group carrier cr g)). split.
      + apply list_elem_of_In. unfold sets. apply list_elem_of_fmap.
        exists (cr, get_group carrier cr g). split; [done|].
        apply elem_of_groupby. split; [done|].
        apply size_gt_1_iff in Hsz as (x & _ & [ir [Hin _]]%elem_of_lob_set & _).
        apply elem_of_get_group in Hin as [Hin Hcr].
        apply elem_of_group_keys. by exists ir.
      + by apply bool_decide_eq_true. }
  destruct (existsb _ sets).
  - split; [intros _; by apply Hex|done].
  - split; [intros Heq; by destruct labels_differ|].
    intros H%Hex. discriminate.
Qed.

Lemma carrier_account_type_of_cases (g : Frame PolicyRecord) :
  carrier_account_type_of g = Cross_Sold_s ∨ carrier_account_type_of g = Monoline_s.
Proof. unfold carrier_account_type_of. destruct (existsb _ _); auto. Qed.

(** Two lines at one carrier are two lines overall. *)
Lemma carrier_cross_implies_cross (g : Frame PolicyRecord) :
  carrier_account_type_of g = Cross_Sold_s → account_type_of g = Cross_Sold_s.
Proof.
  intros [cr Hsz]%carrier_account_type_of_cross.
  apply account_type_of_cross.
  assert (lob_set (get_group carrier cr g) ⊆ lob_set g) as Hsub.
  { apply lob_set_mono. by intros ir [? _]%elem_of_get_group. }
  apply subseteq_size in Hsub. lia.
Qed.

(** ** Rows of the working set and of the classified frame *)

Lemma elem_of_classified records i c :
  (i, c) ∈ add_account_types (working_set records) ↔
  ∃ r, (i, r) ∈ working_set records ∧ c = classified_in (working_set records) r.
Proof. apply elem_of_add_account_types, working_set_NoDup. Qed.

Lemma load_Loaded t df summary :
  load t = Loaded df summary →
  df = add_account_types (working_set (records_of t)) ∧ summary = agency_summary df.
Proof.
  unfold load. destruct (has_required _); [|discriminate].
  intros [= <- <-]. done.
Qed.

(** A concrete membership in a list is settled by evaluation. *)
Ltac by_evaluation :=
  apply list_elem_of_In; vm_compute;
  repeat first [left; reflexivity | right].

(** ** The classifier *)



(** C10: no classified row is Cross-Sold at carrier level without being
    Cross-Sold at agency level; the pair Monoline / Cross-Sold does not
    occur. *)
Theorem carrier_cross_sold_is_cross_sold t df summary i c :
  load t = Loaded df summary →
  (i, c) ∈ df →
  (carrierAccountType c = Some "Cross-Sold" → accountType c = Some "Cross-Sold") ∧
  ¬ (accountType c = Some "Monoline" ∧ carrierAccountType c = Some "Cross-Sold").
Proof.
  intros [-> _]%load_Loaded [r [_ ->]]%elem_of_classified. simpl.
  assert (carrierAccountType (classified_in (working_set (records_of t)) r)
            = Some "Cross-Sold" →
          accountType (classified_in (working_set (records_of t)) r)
            = Some "Cross-Sold") as Himp.
  { simpl. destruct (customerName r) as [k|]; simpl; [|done].
    intros [= Hc]. f_equal. by apply carrier_cross_implies_cross. }
  split; [exact Himp|].
  intros [Hm Hc]. apply Himp in Hc. simpl in *. congruence.
Qed.

Lemma carrier_cross_sold_is_cross_sold_witness :
  accountType alice_home = Some "Cross-Sold".
Proof.
  eapply (carrier_cross_sold_is_cross_sold sample_table _ _ 0 alice_home).
  - vm_compute. reflexivity.
  - by_evaluation.
  - reflexivity.
Defined.



(** ** The line-of-business filter *)

Lemma isin_lob_allow (c : cell) : isin c lob_allow ↔ one_of_three_lines c.
Proof.
  unfold one_of_three_lines, lob_allow. destruct c as [s|]; simpl.
  - rewrite bool_decide_spec, !elem_of_cons, elem_of_nil.
    split.
    + intros [->|[->|[->|[]]]]; auto.
    + intros [[= ->]|[[= ->]|[= ->]]]; auto.
  - split; [done|]. intros [|[|]]; discriminate.
Qed.

Lemma elem_of_lob_filter (df : Frame PolicyRecord) ir :
  ir ∈ lob_filter df ↔ ir ∈ df ∧ one_of_three_lines (lineOfBusiness ir.2).
Proof.
  unfold lob_filter. rewrite list_elem_of_filter, isin_lob_allow. tauto.
Qed.

Lemma elem_of_range_index {A} (rows : list A) i r :
  (i, r) ∈ range_index rows ↔ rows !! i = Some r.
Proof.
  unfold range_index. rewrite elem_of_lookup_zip_with. split.
  - intros (j & x & y & [= -> ->] & [-> _]%lookup_seq & Hy). done.
  - intros Hr. exists i, i, r. split; [done|]. split; [|done].
    apply lookup_seq. split; [done|]. by apply lookup_lt_Some in Hr.
Qed.

Lemma lob_filter_without_customer k (df : Frame PolicyRecord) :
  (∀ ir, ir ∈ df → customerName ir.2 = Some k →
         ¬ one_of_three_lines (lineOfBusiness ir.2)) →
  lob_filter (without_customer k df) = lob_filter df.
Proof.
  unfold lob_filter, without_customer. induction df as [|ir df IH]; [done|].
  intros Hout. rewrite (filter_cons _ ir df).
  assert (∀ ir', ir' ∈ df → customerName ir'.2 = Some k →
            ¬ one_of_three_lines (lineOfBusiness ir'.2)) as Hout'.
  { intros ir' Hin. apply Hout. by right. }
  destruct (decide (customerName ir.2 ≠ Some k)) as [Hne|Heq].
  - rewrite !filter_cons. case_decide; rewrite IH; done.
  - rewrite IH by done. rewrite (filter_cons _ ir df).
    rewrite decide_False; [done|].
    rewrite isin_lob_allow. apply Hout; [by left|].
    by destruct (decide (customerName ir.2 = Some k)).
Qed.

(** C7: the filter keeps exactly the rows whose line of business is, letter
    for letter, Homeowners, Private Passenger Auto or Mobile Homeowners (a
    different capitalisation is dropped); every classified row has such a
    line; and a customer whose policies all lie outside the three lines has
    no classified row and leaves the classified rows and the division
    summary as they are without that customer's records. *)
Theorem filter_keeps_the_three_lines :
  (∀ (df : Frame PolicyRecord) ir,
     ir ∈ lob_filter df ↔ ir ∈ df ∧ one_of_three_lines (lineOfBusiness ir.2)) ∧
  lob_filter (range_index [record "North" "Alice" "homeowners" "CarrierA" "P1"]) = [] ∧
  (∀ (records : list PolicyRecord) i c,
     (i, c) ∈ add_account_types (working_set records) →
     one_of_three_lines (lineOfBusiness (policy c))) ∧
  (∀ (records : list PolicyRecord) k,
     (∀ r, r ∈ records → customerName r = Some k →
           ¬ one_of_three_lines (lineOfBusiness r)) →
     (∀ i c, (i, c) ∈ add_account_types (working_set records) →
             customerName (policy c) ≠ Some k) ∧
     add_account_types (working_set records)
       = add_account_types (lob_filter (without_customer k (range_index records))) ∧
     agency_summary (add_account_types (working_set records))
       = agency_summary (add_account_types
           (lob_filter (without_customer k (range_index records))))).
Proof.
  split; [exact elem_of_lob_filter|]. split; [reflexivity|]. split.
  - intros records i c [r [Hir ->]]%elem_of_classified. simpl.
    by apply elem_of_lob_filter in Hir as [_ Hline].
  - intros records k Hout.
    assert (lob_filter (without_customer k (range_index records))
            = working_set records) as ->.
    { apply lob_filter_without_customer. intros [i r] Hin Hk.
      apply elem_of_range_index in Hin. apply Hout; [|done].
      by apply list_elem_of_lookup_2 in Hin. }
    split; [|done].
    intros i c [r [Hir ->]]%elem_of_classified Hk. simpl in Hk.
    apply elem_of_lob_filter in Hir as [Hir Hline]. simpl in Hline.
    apply elem_of_range_index, list_elem_of_lookup_2 in Hir.
    by apply (Hout r).
Qed.

Lemma filter_keeps_the_three_lines_witness :
  agency_summary (add_account_types (working_set (records_of sample_table)))
  = agency_summary (add_account_types
      (lob_filter (without_customer "Cara" (range_index (records_of sample_table))))).
Proof.
  refine (proj2 (proj2 (proj2 (proj2 (proj2 filter_keeps_the_three_lines))
            (records_of sample_table) "Cara" _))).
  intros r Hin Hk. apply list_elem_of_In in Hin. vm_compute in Hin.
  destruct Hin as [<-|[<-|[<-|[<-|[]]]]]; try discriminate Hk.
  intros [H|[H|H]]; discriminate H.
Defined.

(** ** Required columns *)

Lemma has_required_spec cols :
  has_required cols = true ↔ ∀ col, col ∈ required_cols → col ∈ cols.
Proof.
  unfold has_required. rewrite forallb_forall. split.
  - intros H col Hcol. apply list_elem_of_In in Hcol.
    by apply H, bool_decide_eq_true in Hcol.
  - intros H col Hcol. apply bool_decide_eq_true, H. by apply list_elem_of_In.
Qed.

(** C2, as the program has it: when one of the five canonical columns is
    absent after alias mapping, the load is rejected with the fixed message
    "Missing one or more required columns." and neither filtering nor
    classification takes place: no classified frame and no summary is
    produced.  The message is the same whichever columns are missing. *)
Theorem missing_column_rejects_load t col :
  col ∈ required_cols →
  col ∉ normalize_columns (strip <$> headers t) →
  load t = Rejected "Missing one or more required columns.".
Proof.
  intros Hreq Hmiss. unfold load.
  destruct (has_required _) eqn:Hhas; [|done].
  exfalso. apply Hmiss. by apply has_required_spec.
Qed.

Lemma missing_column_rejects_load_witness :
  load no_policy_number_table = Rejected "Missing one or more required columns.".
Proof.
  apply (missing_column_rejects_load no_policy_number_table "Policy Number").
  - by_evaluation.
  - intros Hin. apply list_elem_of_In in Hin. vm_compute in Hin.
    repeat (destruct Hin as [Hin|Hin]; [discriminate Hin|]). exact Hin.
Defined.

(** The message of the rejection does not name the missing field: a table
    without a policy number column is rejected with a message in which
    "Policy Number" does not occur. *)
Lemma rejection_does_not_name_missing_field :
  missing_fields no_policy_number_table = ["Policy Number"] ∧
  ¬ rejection_names_missing_fields no_policy_number_table.
Proof.
  split; [by vm_compute|].
  intros [message [Hload Hnames]].
  assert (names_field message "Policy Number") as [n Hn].
  { apply Hnames. by_evaluation. }
  vm_compute in Hload. injection Hload as <-.
  vm_compute in Hn. discriminate Hn.
Qed.

(** ** The division summary *)

Lemma elem_of_agency_summary (df : Frame ClassifiedRecord) row :
  row ∈ agency_summary df ↔
  ∃ d, d ∈ group_keys (λ c, division (policy c)) df ∧
       row = summarise d (get_group (λ c, division (policy c)) d df).
Proof.
  unfold agency_summary. rewrite list_elem_of_fmap. split.
  - intros [[d g] [-> [-> Hd]%elem_of_groupby]]. by exists d.
  - intros [d [Hd ->]]. exists (d, get_group (λ c, division (policy c)) d df).
    split; [done|]. by apply elem_of_groupby.
Qed.

Lemma sums_to_100_upto_300 :
  forallb (λ t, forallb (λ m, sums_to_100 m t) (seq 0 301)) (seq 1 300) = true.
Proof. vm_compute. reflexivity. Qed.

(** The percentage columns of a summary row are computed from its two
    counts by the formulas of lines 104 and 105.  Evaluated in binary64:
    7 of 10 gives 70 and 30, 1 of 3 gives 33.33 and 66.67, 2 of 3 gives
    66.67 and 33.33, 1 of 8 gives 12.5 and 87.5, 1 of 160 gives 0.62 (the
    product 0.625 is rounded to even), and for all counts up to 300 the sum
    of the two percentages is exactly 100. *)
Lemma percentage_evaluations :
  (∀ (df : Frame ClassifiedRecord) row,
     row ∈ agency_summary df →
     pct_Monoline row
       = Float64.round2 (Float64.of_count (Monoline row)
                         / Float64.of_count (Total_Clients row) * 100)%float ∧
     pct_Cross_Sold row = (100 - pct_Monoline row)%float ∧
     ((0 < Total_Clients row)%nat → (Total_Clients row ≤ 300)%nat →
      (Monoline row ≤ 300)%nat →
      (pct_Monoline row + pct_Cross_Sold row)%float = 100%float)) ∧
  north_of_ten ∈ agency_summary (add_account_types (working_set ten_clients)) ∧
  Float64.pct_monoline 7 10 = 70%float ∧
  Float64.pct_cross_sold 70%float = 30%float ∧
  Float64.pct_monoline 1 3 = 33.33%float ∧
  Float64.pct_cross_sold 33.33%float = 66.67%float ∧
  Float64.pct_monoline 2 3 = 66.67%float ∧
  Float64.pct_monoline 1 8 = 12.5%float ∧
  Float64.pct_monoline 1 160 = 0.62%float.
Proof.
  split; [|split; [by_evaluation|repeat split; vm_compute; reflexivity]].
  intros df row [d [_ ->]]%elem_of_agency_summary. simpl in *.
  split; [reflexivity|]. split; [reflexivity|].
  intros Hpos Ht Hm.
  set (t := nunique _) in *. set (m := count_eq _ _) in *.
  pose proof sums_to_100_upto_300 as Hall.
  rewrite forallb_forall in Hall.
  specialize (Hall t). rewrite in_seq, forallb_forall in Hall.
  specialize (Hall ltac:(lia) m). rewrite in_seq in Hall.
  specialize (Hall ltac:(lia)).
  by apply FloatAxioms.Leibniz.eqb_spec in Hall.
Qed.

(** ** Counting once per customer: the selected-division view *)

Lemma omap_id_fmap {A B} (f : A → option B) (l : list A) :
  omap id (f <$> l) = omap f l.
Proof.
  induction l as [|x l IH]; [done|]. csimpl.
  destruct (f x); csimpl; by rewrite IH.
Qed.

Lemma nunique_length_keys {A} (key : A → cell) (df : Frame A) :
  nunique ((λ ir, key ir.2) <$> df) = length (group_keys key df).
Proof.
  unfold nunique, group_keys. rewrite omap_id_fmap.
  rewrite <- (size_list_to_set (C:=gset string) (remove_dups _))
    by apply NoDup_remove_dups.
  f_equal. apply set_eq. intros k.
  by rewrite !elem_of_list_to_set, elem_of_remove_dups.
Qed.

Lemma count_eq_two_values (values : list (option string)) :
  (∀ x, x ∈ values → x = Some Monoline_s ∨ x = Some Cross_Sold_s) →
  (count_eq Monoline_s values + count_eq Cross_Sold_s values)%nat = length values.
Proof.
  unfold count_eq. induction values as [|x values IH]; [done|].
  intros Hall. rewrite !filter_cons.
  specialize (IH (λ y Hy, Hall y (list_elem_of_further _ _ _ Hy))).
  destruct (Hall x (list_elem_of_here _ _)) as [-> | ->].
  - rewrite decide_True by done. rewrite decide_False by discriminate.
    simpl. lia.
  - rewrite decide_False by discriminate. rewrite decide_True by done.
    simpl. lia.
Qed.

Lemma first_valid_all {B} (P : B → Prop) (values : list (option B)) :
  values ≠ [] → (∀ x, x ∈ values → ∃ v, x = Some v ∧ P v) →
  ∃ v, first_valid values = Some v ∧ P v.
Proof.
  destruct values as [|x values]; [done|]. intros _ Hall.
  destruct (Hall x (list_elem_of_here _ _)) as [v [-> Hv]]. by exists v.
Qed.

(** The counts of the selected-division view take each customer once, so
    they add up to the number of distinct customers. *)
Lemma per_customer_counts_add_up records d :
  (total_monoline (agency_df d (add_account_types (working_set records)))
   + total_cross_sold (agency_df d (add_account_types (working_set records))))%nat
  = total_clients (agency_df d (add_account_types (working_set records))).
Proof.
  unfold total_monoline, total_cross_sold, total_clients.
  set (adf := agency_df d _).
  rewrite (nunique_length_keys (λ c, customerName (policy c)) adf).
  rewrite count_eq_two_values.
  - unfold first_per_customer, groupby. by rewrite !length_fmap.
  - intros x [[k g] [-> [-> Hk]%elem_of_groupby]]%list_elem_of_fmap. simpl.
    destruct (first_valid_all
                (λ v, v = Monoline_s ∨ v = Cross_Sold_s)
                ((λ ir, accountType ir.2)
                   <$> get_group (λ c, customerName (policy c)) k adf))
      as [v [-> Hv]].
    + apply elem_of_group_keys in Hk as [ir [Hin Hkey]].
      intros Hnil%fmap_nil_inv.
      assert (ir ∈ get_group (λ c, customerName (policy c)) k adf) as Hir
        by by apply elem_of_get_group.
      rewrite Hnil in Hir. by apply elem_of_nil in Hir.
    + intros x [[i c] [-> [Hin Hkey]%elem_of_get_group]]%list_elem_of_fmap.
      simpl in *. unfold adf, agency_df in Hin.
      apply list_elem_of_filter in Hin as [_ [r [_ ->]]%elem_of_classified].
      simpl in *. rewrite Hkey. simpl. eexists. split; [done|].
      destruct (account_type_of_cases
                  (get_group customerName k (working_set records))); auto.
    + destruct Hv as [-> | ->]; auto.
Qed.

(** C1, evaluated on the program: the division summary counts rows, not
    customers.  With Alice on two rows (two lines) and Bob on one, the
    summary of their division reports 2 clients, 1 Monoline and 2
    Cross-Sold, while the selected-division view of the same data counts 1
    and 1.  With Alice on two rows of one line, the summary reports 2
    clients and 3 Monoline, and percentages of 150 and -50. *)
Theorem summary_counts_rows_not_customers :
  (∃ df north,
     load two_customers_table = Loaded df [north] ∧
     Total_Clients north = 2%nat ∧ Monoline north = 1%nat ∧
     Cross_Sold north = 2%nat ∧
     total_clients (agency_df "North" df) = 2%nat ∧
     total_monoline (agency_df "North" df) = 1%nat ∧
     total_cross_sold (agency_df "North" df) = 1%nat) ∧
  (∃ df north,
     load duplicate_policy_table = Loaded df [north] ∧
     Total_Clients north = 2%nat ∧ Monoline north = 3%nat ∧
     Cross_Sold north = 0%nat ∧
     pct_Monoline north = 150%float ∧ pct_Cross_Sold north = (-50)%float).
Proof.
  split; eexists; eexists; (split; [vm_compute; reflexivity|]);
    vm_compute; repeat split.
Qed.

(** C9, evaluated on the program: a division whose rows all have an empty
    customer name cell has zero clients, and both its percentages are NaN,
    not 0.0; nothing is raised.  The carrier table of the selected-division
    view guards the same division and shows zero. *)
Theorem zero_clients_percentages_are_nan :
  ∃ df east west,
    load blank_name_table = Loaded df [east; west] ∧
    Division west = "West" ∧ Total_Clients west = 0%nat ∧
    pct_Monoline west = PrimFloat.nan ∧ pct_Cross_Sold west = PrimFloat.nan ∧
    pct_Monoline west ≠ 0%float ∧ pct_Cross_Sold west ≠ 0%float ∧
    total_clients (agency_df "West" df) = 0%nat ∧
    Float64.carrier_pct (total_carrier_mono (agency_df "West" df))
      (total_clients (agency_df "West" df)) = 0%float.
Proof.
  do 3 eexists. split; [vm_compute; reflexivity|].
  assert (PrimFloat.nan ≠ 0%float) as Hnan.
  { intros H. assert (PrimFloat.is_nan PrimFloat.nan = PrimFloat.is_nan 0%float)
      as E by (by rewrite H).
    vm_compute in E. discriminate E. }
  vm_compute. repeat split; exact Hnan.
Qed.

(** * Further properties of the pipeline *)

(** ** Header normalisation *)

Lemma elem_of_rename x col std_col (cols : list string) :
  x ∈ rename col std_col cols ↔ (x ∈ cols ∧ x ≠ col) ∨ (x = std_col ∧ col ∈ cols).
Proof.
  unfold rename. rewrite list_elem_of_fmap. split.
  - intros [c [-> Hc]]. case_decide; subst; auto.
  - intros [[Hx Hne]|[-> Hcol]].
    + exists x. by rewrite decide_False.
    + exists col. by rewrite decide_True.
Qed.

Lemma rename_same col (cols : list string) : rename col col cols = cols.
Proof.
  unfold rename. induction cols as [|c cols IH]; [done|].
  csimpl. rewrite IH. by case_decide; subst.
Qed.

(** The inner loop either finds no variant and leaves the headers alone, or
    renames one variant that is present. *)
Lemma rename_first_cases std_col variants (cols : list string) :
  (rename_first std_col variants cols = cols ∧ ∀ v, v ∈ variants → v ∉ cols) ∨
  (∃ v, v ∈ variants ∧ v ∈ cols ∧
        rename_first std_col variants cols = rename v std_col cols).
Proof.
  induction variants as [|col rest IH]; simpl.
  - left. split; [done|]. by intros v ?%elem_of_nil.
  - case_decide as Hcol.
    + right. exists col. split; [by left|done].
    + destruct IH as [[Heq Hnone]|(v & Hv & Hin & Heq)].
      * left. split; [done|]. intros v [->|Hv]%elem_of_cons; auto.
      * right. exists v. split; [by right|done].
Qed.

Lemma rename_first_std std_col variants (cols : list string) :
  std_col ∈ variants →
  std_col ∈ rename_first std_col variants cols ↔ ∃ v, v ∈ variants ∧ v ∈ cols.
Proof.
  intros Hstd.
  destruct (rename_first_cases std_col variants cols)
    as [[-> Hnone]|(v & Hv & Hin & ->)].
  - split; [by exists std_col|]. intros (v & Hv & Hin). by destruct (Hnone v).
  - split; [by exists v|]. intros _. apply elem_of_rename. by right.
Qed.

Lemma rename_first_other std_col variants (cols : list string) x :
  x ∉ variants → x ≠ std_col →
  x ∈ rename_first std_col variants cols ↔ x ∈ cols.
Proof.
  intros Hx Hne.
  destruct (rename_first_cases std_col variants cols)
    as [[-> _]|(v & Hv & Hin & ->)]; [done|].
  rewrite elem_of_rename. split.
  - by intros [[? _]|[? _]].
  - intros Hin'. left. split; [done|]. by intros ->.
Qed.

Lemma rename_first_new std_col variants (cols : list string) x :
  x ∈ rename_first std_col variants cols → x = std_col ∨ x ∈ cols.
Proof.
  destruct (rename_first_cases std_col variants cols)
    as [[-> _]|(v & Hv & Hin & ->)]; [auto|].
  rewrite elem_of_rename. intros [[? _]|[? _]]; auto.
Qed.

(** The loop over an alias table [m]. *)
Lemma fold_rename_other (m : list (string * list string)) (cols : list string) x :
  Forall (λ e, (x ∉ snd e) ∧ (x ≠ fst e)) m →
  x ∈ foldl (λ cs e, rename_first e.1 e.2 cs) cols m ↔ x ∈ cols.
Proof.
  intros Hm. revert cols. induction Hm as [|e m [He1 He2] _ IH]; intros cols.
  - done.
  - simpl. rewrite IH. by apply rename_first_other.
Qed.

Lemma fold_rename_new (m : list (string * list string)) (cols : list string) x :
  x ∈ foldl (λ cs e, rename_first e.1 e.2 cs) cols m →
  x ∈ cols ∨ ∃ e, e ∈ m ∧ x = e.1.
Proof.
  revert cols. induction m as [|e m IH]; intros cols; simpl; [auto|].
  intros [Hin|(e' & He' & ->)]%IH.
  - apply rename_first_new in Hin as [->|Hin]; [|auto].
    right. exists e. split; [by left|done].
  - right. exists e'. split; [by right|done].
Qed.

Lemma fold_rename_field pre std_col variants post (cols : list string) :
  std_col ∈ variants →
  Forall (λ v, Forall (λ e : string * list string, (v ∉ snd e) ∧ (v ≠ fst e)) pre)
    variants →
  Forall (λ e : string * list string, (std_col ∉ snd e) ∧ (std_col ≠ fst e)) post →
  std_col ∈ foldl (λ cs e, rename_first e.1 e.2 cs) cols
              (pre ++ (std_col, variants) :: post)
  ↔ ∃ v, v ∈ variants ∧ v ∈ cols.
Proof.
  intros Hstd Hpre Hpost. rewrite foldl_app. simpl.
  rewrite fold_rename_other by done.
  rewrite rename_first_std by done.
  rewrite Forall_forall in Hpre.
  split; intros (v & Hv & Hin); exists v; (split; [done|]).
  - by apply (fold_rename_other pre cols v (Hpre v Hv)).
  - by apply (fold_rename_other pre cols v (Hpre v Hv)).
Qed.

(** A side condition on the concrete alias table, settled by evaluation. *)
Ltac by_decision := apply (bool_decide_unpack _); vm_compute; exact I.

(** After normalisation a canonical name is among the headers exactly when
    one of the field's aliases was. *)
Lemma canonical_present_iff e (cols : list string) :
  e ∈ column_map →
  e.1 ∈ normalize_columns cols ↔ ∃ v, v ∈ e.2 ∧ v ∈ cols.
Proof.
  unfold normalize_columns, column_map.
  rewrite !elem_of_cons, elem_of_nil.
  intros [->|[->|[->|[->|[->|[]]]]]]; simpl fst; simpl snd.
  - apply (fold_rename_field []); by_decision.
  - apply (fold_rename_field [_]); by_decision.
  - apply (fold_rename_field [_; _]); by_decision.
  - apply (fold_rename_field [_; _; _]); by_decision.
  - apply (fold_rename_field [_; _; _; _] _ _ []); by_decision.
Qed.

Lemma required_cols_canonical col :
  col ∈ required_cols ↔ ∃ e, e ∈ column_map ∧ col = e.1.
Proof.
  change required_cols with (fst <$> column_map).
  rewrite list_elem_of_fmap. split; intros [e [? ?]]; by exists e.
Qed.

(** When a step finds the canonical name itself, or none of the field's
    names, it changes nothing. *)
Lemma fold_rename_identity (m : list (string * list string)) (cols : list string) :
  Forall (λ e : string * list string,
            (∃ rest, snd e = fst e :: rest) ∧
            ((fst e ∈ cols) ∨ ∀ v, v ∈ snd e → v ∉ cols)) m →
  foldl (λ cs e, rename_first e.1 e.2 cs) cols m = cols.
Proof.
  induction 1 as [|[std_col variants] m [[rest Hhead] Hor] _ IH]; [done|].
  simpl in *. subst variants.
  assert (rename_first std_col (std_col :: rest) cols = cols) as ->; [|done].
  destruct Hor as [Hin|Hnone].
  - simpl. rewrite decide_True by done. apply rename_same.
  - destruct (rename_first_cases std_col (std_col :: rest) cols)
      as [[Heq _]|(v & Hv & Hin & _)]; [done|].
    by destruct (Hnone v).
Qed.

Lemma column_map_heads :
  Forall (λ e : string * list string, ∃ rest, snd e = fst e :: rest) column_map.
Proof. repeat constructor; simpl; eauto. Qed.

(** Headers that already carry the five canonical names are left as they
    are. *)
Theorem canonical_headers_are_kept (cols : list string) :
  (∀ col, col ∈ required_cols → col ∈ cols) →
  normalize_columns cols = cols.
Proof.
  intros Hall. apply fold_rename_identity.
  pose proof column_map_heads as Hheads.
  rewrite Forall_forall in Hheads. apply Forall_forall.
  intros e He. split; [by apply Hheads|]. left. apply Hall.
  apply required_cols_canonical. by exists e.
Qed.

Lemma canonical_headers_are_kept_witness :
  normalize_columns ("Premium" :: required_cols) = "Premium" :: required_cols.
Proof.
  apply canonical_headers_are_kept.
  intros col Hcol. by right.
Defined.

(** No alias list holds the canonical name of another field. *)
Lemma column_map_separate e e' :
  e ∈ column_map → e' ∈ column_map → e'.1 ∈ e.2 → e'.1 = e.1.
Proof.
  unfold column_map. rewrite !elem_of_cons, !elem_of_nil.
  intros [->|[->|[->|[->|[->|[]]]]]] [->|[->|[->|[->|[->|[]]]]]] Hin;
    try reflexivity; exfalso; revert Hin; by_decision.
Qed.

(** Normalising twice is the same as normalising once. *)
Theorem normalize_columns_idempotent (cols : list string) :
  normalize_columns (normalize_columns cols) = normalize_columns cols.
Proof.
  apply fold_rename_identity.
  pose proof column_map_heads as Hheads.
  rewrite Forall_forall in Hheads. apply Forall_forall.
  intros e He. split; [by apply Hheads|].
  destruct (decide (e.1 ∈ normalize_columns cols)) as [Hin|Hout]; [by left|].
  right. intros v Hv Hvin. apply Hout.
  destruct (fold_rename_new _ _ _ Hvin) as [Hold|(e' & He' & ->)].
  - apply canonical_present_iff; [done|]. by exists v.
  - by rewrite <- (column_map_separate e e').
Qed.

Lemma rename_first_pointwise std_col variants (cols : list string) :
  Forall2 (λ h h', h' = h ∨ (h ∈ variants ∧ h' = std_col))
    cols (rename_first std_col variants cols).
Proof.
  destruct (rename_first_cases std_col variants cols)
    as [[-> _]|(v & Hv & _ & ->)].
  - apply Forall_Forall2_diag, Forall_forall. auto.
  - unfold rename. apply Forall2_fmap_r, Forall_Forall2_diag, Forall_forall.
    intros c _. simpl. case_decide; subst; auto.
Qed.

(** Normalisation works position by position: it keeps the number and the
    order of the headers, and a header either stays as it is or is replaced
    by the canonical name of the field it is an alias of. *)
Theorem normalisation_only_renames_aliases (cols : list string) :
  Forall2 (λ h h', h' = h ∨ ∃ e, e ∈ column_map ∧ h ∈ e.2 ∧ h' = e.1)
    cols (normalize_columns cols).
Proof.
  unfold normalize_columns.
  assert (∀ m cur,
            (∀ e, e ∈ m → e ∈ column_map) →
            Forall2 (λ h h', h' = h ∨ ∃ e, e ∈ column_map ∧ h ∈ e.2 ∧ h' = e.1)
              cols cur →
            Forall2 (λ h h', h' = h ∨ ∃ e, e ∈ column_map ∧ h ∈ e.2 ∧ h' = e.1)
              cols (foldl (λ cs e, rename_first e.1 e.2 cs) cur m)) as Hfold.
  { induction m as [|e m IH]; intros cur Hsub Hcur; [done|].
    simpl. apply IH; [intros e' He'; apply Hsub; by right|].
    assert (e ∈ column_map) as He by (apply Hsub; by left).
    eapply Forall2_trans; [|exact Hcur|apply rename_first_pointwise].
    intros h h1 h2 Hh1 [->|[Hin ->]]; [done|].
    destruct Hh1 as [->|(e0 & He0 & Hh & ->)].
    - right. by exists e.
    - right. exists e0. split; [done|]. split; [done|].
      symmetry. by apply column_map_separate. }
  apply Hfold; [done|].
  apply Forall_Forall2_diag, Forall_forall. auto.
Qed.

(** ** Stripping headers *)

Lemma lstrip_starts s : starts_with_space (lstrip s) = false.
Proof.
  induction s as [|a s IH]; [done|]. simpl.
  destruct (is_space a) eqn:Ha; [done|]. simpl. exact Ha.
Qed.

Lemma lstrip_id s : starts_with_space s = false → lstrip s = s.
Proof. destruct s as [|a s]; [done|]. simpl. by intros ->. Qed.

Lemma rstrip_ends s : ends_with_space (rstrip s) = false.
Proof.
  induction s as [|a s IH]; [done|]. simpl.
  destruct (rstrip s) as [|b r] eqn:Hr.
  - destruct (is_space a) eqn:Ha; [done|]. simpl. exact Ha.
  - exact IH.
Qed.

Lemma rstrip_id s : ends_with_space s = false → rstrip s = s.
Proof.
  induction s as [|a s IH]; [done|].
  destruct s as [|b s'].
  - simpl. by intros ->.
  - intros Hends. change (ends_with_space (String b s') = false) in Hends.
    change (rstrip (String a (String b s')))
      with (match rstrip (String b s') with
            | EmptyString => if is_space a then EmptyString else String a EmptyString
            | r => String a r
            end).
    by rewrite (IH Hends).
Qed.

Lemma rstrip_starts s :
  starts_with_space s = false → starts_with_space (rstrip s) = false.
Proof.
  destruct s as [|a s]; [done|]. simpl. intros Ha.
  destruct (rstrip s); [by rewrite Ha|done].
Qed.

Lemma lstrip_all_space s : all_space s = true → lstrip s = EmptyString.
Proof.
  induction s as [|a s IH]; [done|]. simpl.
  intros [-> Hs]%andb_true_iff. auto.
Qed.

Lemma rstrip_all_space s : all_space s = true → rstrip s = EmptyString.
Proof.
  induction s as [|a s IH]; [done|]. simpl.
  intros [-> Hs]%andb_true_iff. by rewrite IH.
Qed.

Lemma lstrip_app_space p s : all_space p = true → lstrip (p +:+ s) = lstrip s.
Proof.
  induction p as [|a p IH]; [done|]. simpl.
  intros [-> Hp]%andb_true_iff. auto.
Qed.

Lemma rstrip_app_space s q : all_space q = true → rstrip (s +:+ q) = rstrip s.
Proof.
  intros Hq. induction s as [|a s IH]; simpl.
  - by apply rstrip_all_space.
  - by rewrite IH.
Qed.

(** Stripping a header leaves no white space at either end, and stripping
    again changes nothing. *)
Theorem strip_is_clean_and_idempotent s :
  starts_with_space (strip s) = false ∧
  ends_with_space (strip s) = false ∧
  strip (strip s) = strip s.
Proof.
  assert (starts_with_space (strip s) = false) as Hstart
    by apply rstrip_starts, lstrip_starts.
  assert (ends_with_space (strip s) = false) as Hend by apply rstrip_ends.
  split; [done|]. split; [done|].
  unfold strip at 1. by rewrite lstrip_id, rstrip_id.
Qed.

(** Stripping removes the padding around a header and nothing else: a
    header of ASCII characters without white space at its ends comes back
    from any padding with ASCII white space. *)
Theorem strip_removes_padding p h q :
  all_space p = true → all_space q = true →
  all_ascii h = true →
  starts_with_space h = false → ends_with_space h = false →
  strip (p +:+ h +:+ q) = h.
Proof.
  intros Hp Hq _ Hstart Hend. unfold strip.
  rewrite lstrip_app_space by done.
  destruct h as [|a h].
  - simpl. rewrite lstrip_all_space by done. done.
  - rewrite lstrip_id by (simpl in *; done).
    rewrite rstrip_app_space by done. by apply rstrip_id.
Qed.

Lemma strip_removes_padding_witness :
  strip ("  " +:+ "Agency Name" +:+ " ") = "Agency Name".
Proof. apply strip_removes_padding; reflexivity. Defined.

(** ** The division summary and the view of a selected division *)

Lemma summary_divisions (df : Frame ClassifiedRecord) :
  Division <$> agency_summary df = group_keys (λ c, division (policy c)) df.
Proof.
  unfold agency_summary, groupby. rewrite <- !list_fmap_compose.
  rewrite <- (list_fmap_id (group_keys _ df)) at 2.
  by apply list_fmap_ext.
Qed.

(** The summary has exactly one row for every division that occurs in the
    classified frame; rows without a division belong to no summary row. *)
Theorem summary_has_one_row_per_division (df : Frame ClassifiedRecord) :
  NoDup (Division <$> agency_summary df) ∧
  ∀ d, d ∈ Division <$> agency_summary df ↔
       ∃ ir, ir ∈ df ∧ division (policy ir.2) = Some d.
Proof.
  rewrite summary_divisions. split.
  - apply NoDup_remove_dups.
  - intros d. apply (elem_of_group_keys (λ c, division (policy c))).
Qed.

(** Every division offered for selection has rows, so the view of a selected
    division is never empty, and the number of clients the view computes is
    the one in the division's summary row. *)
Theorem selected_division_view_matches_summary (df : Frame ClassifiedRecord) row :
  row ∈ agency_summary df →
  agency_df (Division row) df ≠ [] ∧
  Total_Clients row = total_clients (agency_df (Division row) df).
Proof.
  intros [d [Hd ->]]%elem_of_agency_summary. simpl. split; [|done].
  apply elem_of_group_keys in Hd as [ir [Hin Hdiv]].
  intros Hnil.
  assert (ir ∈ agency_df d df) as Hir.
  { unfold agency_df. by apply list_elem_of_filter. }
  rewrite Hnil in Hir. by apply elem_of_nil in Hir.
Qed.

Lemma selected_division_view_matches_summary_witness :
  agency_df "North" (add_account_types (working_set ten_clients)) ≠ [] ∧
  10%nat = total_clients
             (agency_df "North" (add_account_types (working_set ten_clients))).
Proof.
  apply (selected_division_view_matches_summary _ north_of_ten).
  by_evaluation.
Defined.

(** In the view of a division, the first account types of a customer's group
    are the customer's types. *)
Lemma view_group_first records d k g :
  (k, g) ∈ groupby (λ c, customerName (policy c))
             (agency_df d (add_account_types (working_set records))) →
  first_valid ((λ ir, accountType ir.2) <$> g)
    = Some (account_type_of (get_group customerName k (working_set records))) ∧
  first_valid ((λ ir, carrierAccountType ir.2) <$> g)
    = Some (carrier_account_type_of
              (get_group customerName k (working_set records))).
Proof.
  intros [-> Hk]%elem_of_groupby.
  apply elem_of_group_keys in Hk as [ir [Hin Hkey]].
  assert (ir ∈ get_group (λ c, customerName (policy c)) k
                 (agency_df d (add_account_types (working_set records)))) as Hir
    by by apply elem_of_get_group.
  destruct (get_group _ k _) as [|[i c] g'] eqn:Hg; [by apply elem_of_nil in Hir|].
  assert ((i, c) ∈ get_group (λ c, customerName (policy c)) k
                 (agency_df d (add_account_types (working_set records)))) as Hic
    by (rewrite Hg; by left).
  apply elem_of_get_group in Hic as [Hic Hname].
  apply list_elem_of_filter in Hic as [_ [r [_ ->]]%elem_of_classified].
  simpl in *. by rewrite Hname.
Qed.

Lemma count_eq_mono {A} v (f g : A → option string) (l : list A) :
  (∀ x, x ∈ l → f x = Some v → g x = Some v) →
  (count_eq v (f <$> l) ≤ count_eq v (g <$> l))%nat.
Proof.
  unfold count_eq. induction l as [|x l IH]; [done|].
  intros Himp. csimpl. rewrite !filter_cons.
  specialize (IH (λ y Hy, Himp y (list_elem_of_further _ _ _ Hy))).
  destruct (decide (f x = Some v)) as [Hf|Hf].
  - rewrite decide_True by (apply Himp; [by left|done]). simpl. lia.
  - case_decide; simpl; lia.
Qed.

(** When the groups' series are concatenated, the counts of the
    selected-division view add up to the number of distinct customers. *)
Lemma view_counts_add_up_groups records d :
  (total_monoline (agency_df d (add_account_types (working_set records)))
   + total_cross_sold (agency_df d (add_account_types (working_set records))))%nat
  = total_clients (agency_df d (add_account_types (working_set records))) ∧
  (total_carrier_mono (agency_df d (add_account_types (working_set records)))
   + total_carrier_cross (agency_df d (add_account_types (working_set records))))%nat
  = total_clients (agency_df d (add_account_types (working_set records))).
Proof.
  unfold total_monoline, total_cross_sold, total_carrier_mono,
    total_carrier_cross, total_clients.
  set (adf := agency_df d _).
  rewrite (nunique_length_keys (λ c, customerName (policy c)) adf).
  split; (rewrite count_eq_two_values;
          [unfold first_per_customer, groupby; by rewrite !length_fmap|]).
  - intros x [[k g] [-> Hkg]]%list_elem_of_fmap. simpl.
    destruct (view_group_first records d k g Hkg) as [-> _].
    destruct (account_type_of_cases
                (get_group customerName k (working_set records))) as [-> | ->];
      auto.
  - intros x [[k g] [-> Hkg]]%list_elem_of_fmap. simpl.
    destruct (view_group_first records d k g Hkg) as [_ ->].
    destruct (carrier_account_type_of_cases
                (get_group customerName k (working_set records))) as [-> | ->];
      auto.
Qed.

(** In the view of a division, no more customers are Cross-Sold at carrier
    level than at agency level, and no fewer are Monoline. *)
Theorem view_carrier_cross_sold_at_most_agency records d :
  (total_carrier_cross (agency_df d (add_account_types (working_set records)))
   ≤ total_cross_sold (agency_df d (add_account_types (working_set records))))%nat ∧
  (total_monoline (agency_df d (add_account_types (working_set records)))
   ≤ total_carrier_mono (agency_df d (add_account_types (working_set records))))%nat.
Proof.
  unfold total_monoline, total_cross_sold, total_carrier_mono,
    total_carrier_cross, first_per_customer.
  split; apply count_eq_mono; intros [k g] Hkg; simpl;
    destruct (view_group_first records d k g Hkg) as [-> ->]; intros [= Heq].
  - f_equal. by apply carrier_cross_implies_cross.
  - f_equal.
    destruct (carrier_account_type_of_cases
                (get_group customerName k (working_set records))) as [Hc|Hm];
      [|done].
    apply carrier_cross_implies_cross in Hc.
    rewrite Hc in Heq. by destruct labels_differ.
Qed.

Lemma length_remove_dups_le `{EqDecision A} (l : list A) :
  (length (remove_dups l) ≤ length l)%nat.
Proof.
  induction l as [|x l IH]; [done|]. simpl. case_decide; simpl; lia.
Qed.

Lemma length_omap_filter {A} (key : A → cell) (df : Frame A) :
  length (omap (λ ir, key ir.2) df)
  = length (filter (λ ir, is_Some (key ir.2)) df).
Proof.
  induction df as [|ir df IH]; [done|]. csimpl. rewrite filter_cons.
  destruct (key ir.2) as [k|] eqn:Hk; simpl; by rewrite IH.
Qed.

Lemma count_rows_with_types (g : Frame ClassifiedRecord) :
  (∀ ir, ir ∈ g →
     (customerName (policy ir.2) = None ∧ accountType ir.2 = None) ∨
     (is_Some (customerName (policy ir.2)) ∧
      (accountType ir.2 = Some Monoline_s ∨ accountType ir.2 = Some Cross_Sold_s))) →
  (count_eq Monoline_s ((λ ir, accountType ir.2) <$> g)
   + count_eq Cross_Sold_s ((λ ir, accountType ir.2) <$> g))%nat
  = length (filter (λ ir, is_Some (customerName (policy ir.2))) g).
Proof.
  unfold count_eq. induction g as [|ir g IH]; [done|].
  intros Hall. csimpl. rewrite !filter_cons.
  specialize (IH (λ y Hy, Hall y (list_elem_of_further _ _ _ Hy))).
  destruct (Hall ir (list_elem_of_here _ _)) as [[Hn Ht]|[Hn [Ht|Ht]]];
    rewrite Ht.
  - rewrite !decide_False by done.
    rewrite decide_False by (rewrite Hn; by intros [? ?]). done.
  - rewrite decide_True by done. rewrite decide_False by discriminate.
    rewrite decide_True by done. simpl. lia.
  - rewrite decide_False by discriminate. rewrite decide_True by done.
    rewrite decide_True by done. simpl. lia.
Qed.

Lemma classified_types_by_name records ir :
  ir ∈ add_account_types (working_set records) →
  (customerName (policy ir.2) = None ∧ accountType ir.2 = None
   ∧ carrierAccountType ir.2 = None) ∨
  (is_Some (customerName (policy ir.2)) ∧
   (accountType ir.2 = Some Monoline_s ∨ accountType ir.2 = Some Cross_Sold_s) ∧
   (carrierAccountType ir.2 = Some Monoline_s
    ∨ carrierAccountType ir.2 = Some Cross_Sold_s)).
Proof.
  destruct ir as [i c]. intros [r [_ ->]]%elem_of_classified. simpl.
  destruct (customerName r) as [k|]; simpl; [right|left; done].
  split; [eauto|].
  destruct (account_type_of_cases (get_group customerName k (working_set records)))
    as [-> | ->];
  destruct (carrier_account_type_of_cases
              (get_group customerName k (working_set records))) as [-> | ->];
  auto.
Qed.

(** When the groups' series are concatenated, the two counts of a summary
    row add up to the number of the division's rows with a customer name. *)
Lemma summary_counts_named_rows_groups records row :
  row ∈ agency_summary (add_account_types (working_set records)) →
  (Monoline row + Cross_Sold row)%nat
  = length (filter (λ ir, is_Some (customerName (policy ir.2)))
              (agency_df (Division row) (add_account_types (working_set records)))) ∧
  (Total_Clients row ≤ Monoline row + Cross_Sold row)%nat.
Proof.
  intros [d [_ ->]]%elem_of_agency_summary. simpl.
  set (g := get_group _ d _).
  assert ((count_eq Monoline_s ((λ ir, accountType ir.2) <$> g)
           + count_eq Cross_Sold_s ((λ ir, accountType ir.2) <$> g))%nat
          = length (filter (λ ir, is_Some (customerName (policy ir.2))) g)) as Hsum.
  { apply count_rows_with_types. intros ir [Hir _]%elem_of_get_group.
    destruct (classified_types_by_name records ir Hir)
      as [(? & ? & _)|(? & ? & _)]; auto. }
  split; [exact Hsum|]. rewrite Hsum.
  rewrite (nunique_length_keys (λ c, customerName (policy c)) g).
  rewrite <- (length_omap_filter (λ c, customerName (policy c)) g).
  apply length_remove_dups_le.
Qed.

(** ** Divisions without a named customer *)

Lemma nunique_zero (values : list cell) :
  nunique values = 0%nat → ∀ x, x ∈ values → x = None.
Proof.
  unfold nunique. intros Hsz%size_empty_inv x Hx.
  destruct x as [k|]; [|done]. exfalso.
  assert (k ∈ (list_to_set (omap id values) : gset string)) as Hk.
  { apply elem_of_list_to_set, list_elem_of_omap. by exists (Some k). }
  rewrite Hsz in Hk. by apply not_elem_of_empty in Hk.
Qed.

Lemma count_eq_none v (values : list (option string)) :
  (∀ x, x ∈ values → x = None) → count_eq v values = 0%nat.
Proof.
  unfold count_eq. induction values as [|x values IH]; [done|].
  intros Hall. rewrite filter_cons.
  rewrite (Hall x) by by left. rewrite decide_False by done.
  apply IH. intros y Hy. apply Hall. by right.
Qed.

(** A summary row without clients has no counted rows and NaN in both
    percentage columns. *)
Lemma zero_clients_row records row :
  row ∈ agency_summary (add_account_types (working_set records)) →
  Total_Clients row = 0%nat →
  Monoline row = 0%nat ∧ Cross_Sold row = 0%nat ∧
  pct_Monoline row = PrimFloat.nan ∧ pct_Cross_Sold row = PrimFloat.nan.
Proof.
  intros [d [_ ->]]%elem_of_agency_summary. simpl.
  set (g := get_group _ d _). intros Hzero.
  assert (∀ x, x ∈ (λ ir, accountType ir.2) <$> g → x = None) as Hnone.
  { intros x [ir [-> Hir]]%list_elem_of_fmap.
    assert (customerName (policy ir.2) = None) as Hname.
    { apply (nunique_zero _ Hzero). apply list_elem_of_fmap. by exists ir. }
    apply elem_of_get_group in Hir as [Hir _].
    destruct (classified_types_by_name records ir Hir)
      as [(_ & ? & _)|([k Hk] & _)]; [done|congruence]. }
  rewrite Hzero, !count_eq_none by done. by vm_compute.
Qed.

(** ** Rows of the classified frame *)

Lemma elem_of_working_set records i r :
  (i, r) ∈ working_set records ↔
  records !! i = Some r ∧ one_of_three_lines (lineOfBusiness r).
Proof.
  unfold working_set. rewrite elem_of_lob_filter, elem_of_range_index. done.
Qed.

Lemma add_account_types_rows (df : Frame PolicyRecord) :
  (λ ir, (ir.1, policy ir.2)) <$> add_account_types df = df.
Proof.
  unfold add_account_types. rewrite <- list_fmap_compose.
  transitivity (id <$> df); [|apply list_fmap_id].
  apply list_fmap_ext. by intros _ [i r] _.
Qed.

(** Classification neither adds, drops nor reorders rows: the classified
    frame of a load is the filtered working set with two columns added, its
    labels are distinct, and the row labelled [i] is row [i] of the table. *)
Theorem classified_frame_keeps_rows t df summary :
  load t = Loaded df summary →
  (λ ir, (ir.1, policy ir.2)) <$> df = working_set (records_of t) ∧
  NoDup (df.*1) ∧
  ∀ i c, (i, c) ∈ df →
         records_of t !! i = Some (policy c) ∧
         one_of_three_lines (lineOfBusiness (policy c)).
Proof.
  intros [-> _]%load_Loaded.
  pose proof (add_account_types_rows (working_set (records_of t))) as Hrows.
  split; [exact Hrows|]. split.
  - replace ((add_account_types (working_set (records_of t))).*1)
      with ((working_set (records_of t)).*1); [apply working_set_NoDup|].
    rewrite <- Hrows at 1. rewrite <- list_fmap_compose.
    by apply list_fmap_ext.
  - intros i c [r [Hir ->]]%elem_of_classified. simpl.
    by apply elem_of_working_set.
Qed.

Lemma classified_frame_keeps_rows_witness :
  NoDup ((add_account_types (working_set (records_of sample_table))).*1).
Proof.
  eapply (classified_frame_keeps_rows sample_table).
  vm_compute. reflexivity.
Defined.

(** ** More policies never undo a cross-sale *)

Lemma customer_rows_transfer records records' k j r :
  (∀ r, r ∈ records → customerName r = Some k → r ∈ records') →
  (j, r) ∈ get_group customerName k (working_set records) →
  ∃ j', (j', r) ∈ get_group customerName k (working_set records').
Proof.
  intros Hsub [[Hj Hline]%elem_of_working_set Hk]%elem_of_get_group.
  simpl in Hk.
  assert (r ∈ records') as [j' Hj']%list_elem_of_lookup_1.
  { apply Hsub; [|done]. by apply list_elem_of_lookup_2 in Hj. }
  exists j'. apply elem_of_get_group. split; [|done].
  by apply elem_of_working_set.
Qed.

(** If a second table holds every record the first holds for a customer,
    then a customer who is Cross-Sold in the first is Cross-Sold in the
    second, at agency level and at carrier level. *)
Theorem more_policies_keep_cross_sold records records' k i c i' c' :
  (∀ r, r ∈ records → customerName r = Some k → r ∈ records') →
  (i, c) ∈ add_account_types (working_set records) →
  (i', c') ∈ add_account_types (working_set records') →
  customerName (policy c) = Some k →
  customerName (policy c') = Some k →
  (accountType c = Some "Cross-Sold" → accountType c' = Some "Cross-Sold") ∧
  (carrierAccountType c = Some "Cross-Sold" →
   carrierAccountType c' = Some "Cross-Sold").
Proof.
  intros Hsub [r [_ ->]]%elem_of_classified [r' [_ ->]]%elem_of_classified Hk Hk'.
  simpl in *. rewrite Hk, Hk'. simpl.
  split; intros [= Hcross]; f_equal.
  - apply account_type_of_cross. apply account_type_of_cross in Hcross.
    assert (lob_set (get_group customerName k (working_set records))
            ⊆ lob_set (get_group customerName k (working_set records'))) as Hle.
    { intros l [[j r0] [Hin <-]]%elem_of_lob_set.
      destruct (customer_rows_transfer _ _ _ _ _ Hsub Hin) as [j' Hin'].
      apply elem_of_lob_set. by exists (j', r0). }
    apply subseteq_size in Hle. lia.
  - apply carrier_account_type_of_cross.
    apply carrier_account_type_of_cross in Hcross as [cr Hsz].
    exists cr.
    assert (lob_set (get_group carrier cr
                       (get_group customerName k (working_set records)))
            ⊆ lob_set (get_group carrier cr
                         (get_group customerName k (working_set records'))))
      as Hle.
    { intros l [[j r0] [[Hin Hcr]%elem_of_get_group <-]]%elem_of_lob_set.
      destruct (customer_rows_transfer _ _ _ _ _ Hsub Hin) as [j' Hin'].
      apply elem_of_lob_set. exists (j', r0). split; [|done].
      by apply elem_of_get_group. }
    apply subseteq_size in Hle. lia.
Qed.

Lemma more_policies_keep_cross_sold_witness :
  accountType
    (classified_in
       (working_set (record "North" "Alice" "Mobile Homeowners" "CarrierA" "P9"
                     :: two_carriers))
       (record "North" "Alice" "Homeowners" "CarrierA" "P1"))
  = Some "Cross-Sold".
Proof.
  refine (proj1 (more_policies_keep_cross_sold two_carriers
            (record "North" "Alice" "Mobile Homeowners" "CarrierA" "P9"
             :: two_carriers) "Alice"
            0 (classified_in (working_set two_carriers)
                 (record "North" "Alice" "Homeowners" "CarrierA" "P1"))
            1 _ _ _ _ _ _) _).
  - intros r Hin _. by right.
  - by_evaluation.
  - by_evaluation.
  - reflexivity.
  - reflexivity.
  - reflexivity.
Defined.

(** ** Highlighting *)

(** The pairs of account types a classified row can carry. *)
Lemma classified_type_pairs records ir :
  ir ∈ add_account_types (working_set records) →
  (accountType ir.2 = None ∧ carrierAccountType ir.2 = None) ∨
  (accountType ir.2 = Some Monoline_s ∧ carrierAccountType ir.2 = Some Monoline_s) ∨
  (accountType ir.2 = Some Cross_Sold_s ∧ carrierAccountType ir.2 = Some Monoline_s) ∨
  (accountType ir.2 = Some Cross_Sold_s ∧ carrierAccountType ir.2 = Some Cross_Sold_s).
Proof.
  destruct ir as [i c]. intros [r [_ ->]]%elem_of_classified. simpl.
  destruct (customerName r) as [k|]; simpl; [|auto].
  set (g := get_group customerName k (working_set records)).
  destruct (carrier_account_type_of_cases g) as [Hc|Hc].
  - rewrite Hc, (carrier_cross_implies_cross g Hc). auto.
  - rewrite Hc. destruct (account_type_of_cases g) as [-> | ->]; auto.
Qed.

(** The colours agree with the legend of the report.  A row is green exactly
    when it is Cross-Sold at carrier level (and then also at agency level),
    yellow exactly when it is Cross-Sold at agency level only, and plain
    exactly when it is not Cross-Sold at agency level; no row is highlighted
    for a carrier-level cross-sale alone.  The on-screen table uses light
    green, khaki and no style for the same rows. *)
Theorem highlights_match_the_legend t df summary i c :
  load t = Loaded df summary →
  (i, c) ∈ df →
  (highlight_row c = Some "green" ↔
     accountType c = Some "Cross-Sold" ∧ carrierAccountType c = Some "Cross-Sold") ∧
  (highlight_row c = Some "green" ↔ carrierAccountType c = Some "Cross-Sold") ∧
  (highlight_row c = Some "yellow" ↔
     accountType c = Some "Cross-Sold" ∧ carrierAccountType c = Some "Monoline") ∧
  (highlight_row c = None ↔ accountType c ≠ Some "Cross-Sold") ∧
  (highlight_cross c = replicate 6 "background-color: lightgreen" ↔
     highlight_row c = Some "green") ∧
  (highlight_cross c = replicate 6 "background-color: khaki" ↔
     highlight_row c = Some "yellow") ∧
  (highlight_cross c = replicate 6 "" ↔ highlight_row c = None).
Proof.
  intros [-> _]%load_Loaded Hin.
  unfold highlight_row, highlight_cross.
  destruct (classified_type_pairs _ _ Hin) as [[Ha Hb]|[[Ha Hb]|[[Ha Hb]|[Ha Hb]]]];
    simpl in Ha, Hb; rewrite Ha, Hb; vm_compute;
    repeat split; intros; try discriminate; try done;
    repeat match goal with H : _ ∧ _ |- _ => destruct H end;
    try discriminate; try done.
Qed.

Lemma highlights_match_the_legend_witness :
  highlight_row alice_home = Some "green" ↔
  carrierAccountType alice_home = Some "Cross-Sold".
Proof.
  eapply (highlights_match_the_legend sample_table _ _ 0 alice_home).
  - vm_compute. reflexivity.
  - by_evaluation.
Defined.

(** ** The summary counts against the per-customer counts *)

Lemma length_filter_fmap {A B} (f : A → B) (P : B → Prop)
    `{!∀ y, Decision (P y)} (l : list A) :
  length (filter P (f <$> l)) = length (filter (λ x, P (f x)) l).
Proof.
  induction l as [|x l IH]; [done|]. csimpl. rewrite !filter_cons.
  case_decide; simpl; by rewrite IH.
Qed.

Lemma length_omap_le {A B} (f : A → option B) (l : list A) :
  (length (omap f l) ≤ length l)%nat.
Proof.
  induction l as [|x l IH]; [done|]. csimpl. destruct (f x); simpl; lia.
Qed.

Lemma view_count_le_row_count records d v :
  (count_eq v (first_per_customer accountType
                 (agency_df d (add_account_types (working_set records))))
   ≤ count_eq v ((λ ir, accountType ir.2)
                   <$> agency_df d (add_account_types (working_set records))))%nat.
Proof.
  set (adf := agency_df d _).
  unfold count_eq, first_per_customer. rewrite !length_filter_fmap.
  set (groups := filter _ (groupby _ adf)).
  set (rows := filter _ adf).
  assert (length groups = length (groups.*1)) as -> by by rewrite length_fmap.
  transitivity (length (omap (λ ir, customerName (policy ir.2)) rows));
    [|apply length_omap_le].
  apply submseteq_length, NoDup_submseteq.
  - apply (sublist_NoDup _ (group_keys (λ c, customerName (policy c)) adf)).
    + apply NoDup_remove_dups.
    + replace (group_keys (λ c, customerName (policy c)) adf)
        with ((groupby (λ c, customerName (policy c)) adf).*1).
      * apply fmap_sublist. by apply sublist_filter.
      * unfold groupby. rewrite <- list_fmap_compose.
        transitivity (id <$> group_keys (λ c, customerName (policy c)) adf);
          [by apply list_fmap_ext|apply list_fmap_id].
  - intros k [[k' g] [-> [Hfirst Hkg]%list_elem_of_filter]]%list_elem_of_fmap.
    simpl in *.
    destruct (view_group_first records d k' g Hkg) as [Hg _].
    rewrite Hg in Hfirst.
    apply elem_of_groupby in Hkg as [-> Hk].
    apply elem_of_group_keys in Hk as [[i c] [Hin Hname]]. simpl in Hname.
    apply list_elem_of_omap. exists (i, c). split; [|done].
    apply list_elem_of_filter. split; [|done]. simpl.
    unfold adf, agency_df in Hin.
    apply list_elem_of_filter in Hin as [_ [r [_ ->]]%elem_of_classified].
    simpl in *. by rewrite Hname.
Qed.

(** The counts of a summary row are never below the per-customer counts of
    the selected-division view: the summary counts a customer once for every
    row the customer has in the division. *)
Theorem summary_counts_at_least_view_counts records row :
  row ∈ agency_summary (add_account_types (working_set records)) →
  (total_monoline (agency_df (Division row)
                     (add_account_types (working_set records)))
   ≤ Monoline row)%nat ∧
  (total_cross_sold (agency_df (Division row)
                       (add_account_types (working_set records)))
   ≤ Cross_Sold row)%nat.
Proof.
  intros [d [_ ->]]%elem_of_agency_summary. simpl.
  split; apply view_count_le_row_count.
Qed.

Lemma summary_counts_at_least_view_counts_witness :
  (total_cross_sold (agency_df "North"
                       (add_account_types (working_set ten_clients)))
   ≤ 3)%nat.
Proof.
  apply (summary_counts_at_least_view_counts ten_clients north_of_ten).
  by_evaluation.
Defined.

(** * The program on every table *)

(** ** One group, no group, two groups *)

Lemma two_keys_two_groups {A} (key : A → cell) (df : Frame A) ir1 ir2 k1 k2 :
  ir1 ∈ df → ir2 ∈ df → key ir1.2 = Some k1 → key ir2.2 = Some k2 → k1 ≠ k2 →
  (2 ≤ length (groupby key df))%nat.
Proof.
  intros Hin1 Hin2 Hk1 Hk2 Hne.
  assert (k1 ∈ group_keys key df) as Hg1 by (apply elem_of_group_keys; eauto).
  assert (k2 ∈ group_keys key df) as Hg2 by (apply elem_of_group_keys; eauto).
  unfold groupby. rewrite length_fmap.
  destruct (group_keys key df) as [|a [|b l]]; simpl; [| |lia].
  - by apply elem_of_nil in Hg1.
  - apply list_elem_of_singleton in Hg1, Hg2. congruence.
Qed.

(** With two or more groups the program classifies as [add_account_types]
    does. *)
Lemma classify_frame_groups (df : Frame PolicyRecord) :
  (2 ≤ length (groupby customerName df))%nat →
  classify_frame df = Some (add_account_types df).
Proof.
  unfold classify_frame, add_account_types, apply_groupwise.
  destruct (groupby customerName df) as [|a [|b l]]; simpl; [lia|lia|done].
Qed.

Lemma classify_frame_rows (df : Frame PolicyRecord) cdf :
  classify_frame df = Some cdf → (λ ir, (ir.1, policy ir.2)) <$> cdf = df.
Proof.
  unfold classify_frame.
  destruct (assigned _) as [account|]; [|done].
  destruct (assigned _) as [carrier_account|]; [|done].
  intros [= <-]. rewrite <- list_fmap_compose.
  transitivity (id <$> df); [|apply list_fmap_id].
  apply list_fmap_ext. by intros _ [i r] _.
Qed.

Lemma classify_frame_two_customers (df : Frame PolicyRecord) cdf :
  classify_frame df = Some cdf → two_customers cdf →
  cdf = add_account_types df.
Proof.
  intros Hcdf (i1 & c1 & k1 & i2 & c2 & k2 & Hin1 & Hin2 & Hk1 & Hk2 & Hne).
  pose proof (classify_frame_rows df cdf Hcdf) as Hrows.
  assert ((i1, policy c1) ∈ df) as Hdf1.
  { rewrite <- Hrows. apply list_elem_of_fmap. by exists (i1, c1). }
  assert ((i2, policy c2) ∈ df) as Hdf2.
  { rewrite <- Hrows. apply list_elem_of_fmap. by exists (i2, c2). }
  rewrite classify_frame_groups in Hcdf; [congruence|].
  by apply (two_keys_two_groups customerName df (i1, policy c1) (i2, policy c2) k1 k2).
Qed.

Lemma run_Ok t df summary :
  run t = Ok df summary →
  classify_frame (working_set (records_of t)) = Some df ∧
  summary = agency_summary df.
Proof.
  unfold run. destruct (has_required _); [|done].
  destruct (ambiguous _); [done|].
  destruct (classify_frame _) as [cdf|]; [|done].
  by intros [= <- <-].
Qed.

(** When the program returns a frame with two customers, the frame and the
    summary are those of [load]. *)
Lemma run_Ok_two_customers t df summary :
  run t = Ok df summary → two_customers df →
  df = add_account_types (working_set (records_of t)) ∧
  summary = agency_summary df.
Proof.
  intros [Hdf ->]%run_Ok Htwo. split; [|done].
  by apply classify_frame_two_customers.
Qed.

(** Two rows of different customers in a concrete frame, at the given
    labels. *)
Ltac show_two_customers i1 i2 :=
  unfold two_customers; exists i1; do 2 eexists; exists i2; do 2 eexists;
  (split; [by_evaluation|]); (split; [by_evaluation|]);
  (split; [reflexivity|]); (split; [reflexivity|discriminate]).

(** ** A customer's records *)

Lemma account_type_cross_records records k :
  account_type_of (get_group customerName k (working_set records)) = Cross_Sold_s ↔
  ∃ r1 r2, r1 ∈ records ∧ r2 ∈ records ∧
           customerName r1 = Some k ∧ customerName r2 = Some k ∧
           one_of_three_lines (lineOfBusiness r1) ∧
           one_of_three_lines (lineOfBusiness r2) ∧
           lineOfBusiness r1 ≠ lineOfBusiness r2.
Proof.
  rewrite account_type_of_cross, size_gt_1_iff. split.
  - intros (x & y & [[i1 r1] [Hin1 <-]]%elem_of_lob_set
              & [[i2 r2] [Hin2 <-]]%elem_of_lob_set & Hxy).
    apply elem_of_get_group in Hin1 as [[Hl1 Ha1]%elem_of_working_set Hk1].
    apply elem_of_get_group in Hin2 as [[Hl2 Ha2]%elem_of_working_set Hk2].
    exists r1, r2. simpl in *.
    apply list_elem_of_lookup_2 in Hl1, Hl2. done.
  - intros (r1 & r2 & [i1 Hl1]%list_elem_of_lookup_1
              & [i2 Hl2]%list_elem_of_lookup_1 & Hk1 & Hk2 & Ha1 & Ha2 & Hne).
    exists (lineOfBusiness r1), (lineOfBusiness r2).
    split; [|split; [|done]]; apply elem_of_lob_set.
    + exists (i1, r1). split; [|done]. apply elem_of_get_group.
      split; [|done]. by apply elem_of_working_set.
    + exists (i2, r2). split; [|done]. apply elem_of_get_group.
      split; [|done]. by apply elem_of_working_set.
Qed.

Lemma carrier_type_cross_records records k :
  carrier_account_type_of (get_group customerName k (working_set records))
    = Cross_Sold_s ↔
  ∃ cr r1 r2, r1 ∈ records ∧ r2 ∈ records ∧
              customerName r1 = Some k ∧ customerName r2 = Some k ∧
              carrier r1 = Some cr ∧ carrier r2 = Some cr ∧
              one_of_three_lines (lineOfBusiness r1) ∧
              one_of_three_lines (lineOfBusiness r2) ∧
              lineOfBusiness r1 ≠ lineOfBusiness r2.
Proof.
  rewrite carrier_account_type_of_cross. split.
  - intros [cr (x & y & [[i1 r1] [Hin1 <-]]%elem_of_lob_set
                  & [[i2 r2] [Hin2 <-]]%elem_of_lob_set & Hxy)%size_gt_1_iff].
    apply elem_of_get_group in Hin1 as [Hin1 Hc1].
    apply elem_of_get_group in Hin2 as [Hin2 Hc2].
    apply elem_of_get_group in Hin1 as [[Hl1 Ha1]%elem_of_working_set Hk1].
    apply elem_of_get_group in Hin2 as [[Hl2 Ha2]%elem_of_working_set Hk2].
    exists cr, r1, r2. simpl in *.
    apply list_elem_of_lookup_2 in Hl1, Hl2. done.
  - intros (cr & r1 & r2 & [i1 Hl1]%list_elem_of_lookup_1
              & [i2 Hl2]%list_elem_of_lookup_1
              & Hk1 & Hk2 & Hc1 & Hc2 & Ha1 & Ha2 & Hne).
    exists cr. apply size_gt_1_iff.
    exists (lineOfBusiness r1), (lineOfBusiness r2).
    split; [|split; [|done]]; apply elem_of_lob_set.
    + exists (i1, r1). split; [|done]. apply elem_of_get_group.
      split; [|done]. apply elem_of_get_group.
      split; [|done]. by apply elem_of_working_set.
    + exists (i2, r2). split; [|done]. apply elem_of_get_group.
      split; [|done]. apply elem_of_get_group.
      split; [|done]. by apply elem_of_working_set.
Qed.

(** ** A single customer *)

(** C4, evaluated on the program: a working set with a single customer is
    not classified as the claim says.  When Alice is the only customer left
    by the filter and her one row is not the first row of the table, her
    account type stays empty (NaN) instead of Monoline; when she is the only
    customer and holds two rows with two lines, the assignment of line 96
    raises instead of marking both rows Cross-Sold. *)
Theorem sole_customer_has_no_account_type :
  (∃ summary,
     run sole_customer_table
     = Ok [(1%nat, {| policy := record "North" "Alice" "Homeowners" "CarrierA" "P2";
                      accountType := None; carrierAccountType := None |})]
          summary) ∧
  run sole_customer_two_lines_table = ValueError.
Proof.
  split; [eexists|]; vm_compute; reflexivity.
Qed.

(** C5, evaluated on the program: the customer of the claim's example, with
    Homeowners at CarrierA and Private Passenger Auto at CarrierB, is not
    classified when she is the only customer of the table: line 96 raises.
    A sole customer on one row that is not the first row of the table is
    left without a carrier account type, neither Cross-Sold nor Monoline. *)
Theorem sole_customer_has_no_carrier_account_type :
  run sole_customer_two_lines_table = ValueError ∧
  ∃ df summary,
    run sole_customer_table = Ok df summary ∧
    df ≠ [] ∧
    ∀ i c, (i, c) ∈ df →
           customerName (policy c) = Some "Alice" ∧
           carrierAccountType c ≠ Some "Cross-Sold" ∧
           carrierAccountType c ≠ Some "Monoline".
Proof.
  split; [vm_compute; reflexivity|].
  do 2 eexists. split; [vm_compute; reflexivity|]. split; [done|].
  intros i c [[= -> ->]|[]%elem_of_nil]%elem_of_cons. done.
Qed.

(** ** Two or more customers *)

(** When the program returns a frame that holds two or more customers, the
    account type of each row of a customer is Cross-Sold when the customer's
    records with one of the three retained lines hold more than one distinct
    line, and Monoline when they hold exactly one (there is always at least
    one).  Any list with the same members as those lines gives the same
    answer: neither row order nor repeated lines matter. *)
Theorem account_type_by_distinct_lines t df summary i c k (lines : list cell) :
  run t = Ok df summary →
  two_customers df →
  (i, c) ∈ df →
  customerName (policy c) = Some k →
  (∀ l, l ∈ lines ↔
        ∃ r, r ∈ records_of t ∧ customerName r = Some k ∧
             lineOfBusiness r = l ∧ one_of_three_lines l) →
  (1 ≤ size (list_to_set lines : gset cell))%nat ∧
  ((1 < size (list_to_set lines : gset cell))%nat →
     accountType c = Some "Cross-Sold") ∧
  (size (list_to_set lines : gset cell) = 1%nat →
     accountType c = Some "Monoline").
Proof.
  intros Hrun Htwo Hin Hk Hlines.
  destruct (run_Ok_two_customers _ _ _ Hrun Htwo) as [-> _].
  apply elem_of_classified in Hin as [r [Hir ->]]. simpl in Hk.
  assert ((list_to_set lines : gset cell)
          = lob_set (get_group customerName k (working_set (records_of t)))) as ->.
  { apply set_eq. intros l. rewrite elem_of_list_to_set, Hlines, elem_of_lob_set.
    split.
    - intros (r0 & [j Hj]%list_elem_of_lookup_1 & Hk0 & <- & Hl).
      exists (j, r0). split; [|done]. apply elem_of_get_group.
      split; [|done]. by apply elem_of_working_set.
    - intros [[j r0] [[[Hj Hl]%elem_of_working_set Hk0]%elem_of_get_group <-]].
      exists r0. simpl in *. apply list_elem_of_lookup_2 in Hj. done. }
  simpl. rewrite Hk. simpl. unfold account_type_of.
  split; [|split].
  - apply (lob_set_nonempty _ (i, r)). by apply elem_of_get_group.
  - intros Hsz. by rewrite decide_True.
  - intros Hsz. rewrite decide_False by lia. done.
Qed.

Lemma account_type_by_distinct_lines_witness :
  accountType alice_home = Some "Cross-Sold".
Proof.
  eapply (account_type_by_distinct_lines sample_table _ _ 0 alice_home "Alice"
            [Some "Private Passenger Auto"; Some "Homeowners";
             Some "Private Passenger Auto"]).
  - vm_compute. reflexivity.
  - show_two_customers 0%nat 2%nat.
  - by_evaluation.
  - reflexivity.
  - intros l. rewrite !elem_of_cons, elem_of_nil. split.
    + intros [->|[->|[->|[]]]].
      * eexists. split; [apply list_elem_of_In; vm_compute; right; left; reflexivity|].
        unfold one_of_three_lines. auto.
      * eexists. split; [apply list_elem_of_In; vm_compute; left; reflexivity|].
        unfold one_of_three_lines. auto.
      * eexists. split; [apply list_elem_of_In; vm_compute; right; left; reflexivity|].
        unfold one_of_three_lines. auto.
    + intros (r & Hr & Hk & <- & _).
      apply list_elem_of_In in Hr. vm_compute in Hr.
      destruct Hr as [<-|[<-|[<-|[<-|[]]]]]; try discriminate Hk; auto.
  - vm_compute. lia.
Defined.

(** When the program returns a frame that holds two or more customers, the
    carrier account type of each row of a customer is Cross-Sold exactly
    when two of the customer's records with retained lines name the same
    carrier and different lines, and Monoline otherwise.  In particular a
    customer whose retained records are Homeowners at one carrier and
    Private Passenger Auto at another is Cross-Sold at agency level and
    Monoline at carrier level. *)
Theorem carrier_account_type_by_carrier_groups t df summary i c k :
  run t = Ok df summary →
  two_customers df →
  (i, c) ∈ df →
  customerName (policy c) = Some k →
  (carrierAccountType c = Some "Cross-Sold" ↔
     ∃ cr r1 r2, r1 ∈ records_of t ∧ r2 ∈ records_of t ∧
                 customerName r1 = Some k ∧ customerName r2 = Some k ∧
                 carrier r1 = Some cr ∧ carrier r2 = Some cr ∧
                 one_of_three_lines (lineOfBusiness r1) ∧
                 one_of_three_lines (lineOfBusiness r2) ∧
                 lineOfBusiness r1 ≠ lineOfBusiness r2) ∧
  (carrierAccountType c ≠ Some "Cross-Sold" →
     carrierAccountType c = Some "Monoline") ∧
  (∀ ca cb : string,
     ca ≠ cb →
     (∀ r, r ∈ records_of t → customerName r = Some k →
           one_of_three_lines (lineOfBusiness r) →
           (lineOfBusiness r = Some "Homeowners" ∧ carrier r = Some ca) ∨
           (lineOfBusiness r = Some "Private Passenger Auto" ∧ carrier r = Some cb)) →
     (∃ r, r ∈ records_of t ∧ customerName r = Some k ∧
           lineOfBusiness r = Some "Homeowners") →
     (∃ r, r ∈ records_of t ∧ customerName r = Some k ∧
           lineOfBusiness r = Some "Private Passenger Auto") →
     accountType c = Some "Cross-Sold" ∧ carrierAccountType c = Some "Monoline").
Proof.
  intros Hrun Htwo Hin Hk.
  destruct (run_Ok_two_customers _ _ _ Hrun Htwo) as [-> _].
  apply elem_of_classified in Hin as [r [Hir ->]]. simpl in *.
  rewrite Hk. simpl.
  set (g := get_group customerName k (working_set (records_of t))).
  split; [|split].
  - rewrite <- carrier_type_cross_records. fold g. split; [by intros [= ?]|].
    by intros ->.
  - destruct (carrier_account_type_of_cases g) as [-> | ->]; done.
  - intros ca cb Hab Hrows (r1 & Hr1 & Hk1 & Hl1) (r2 & Hr2 & Hk2 & Hl2).
    split; f_equal.
    + apply account_type_cross_records. exists r1, r2.
      rewrite Hl1, Hl2. unfold one_of_three_lines. naive_solver.
    + destruct (carrier_account_type_of_cases g) as [Hcross|Hmono]; [|done].
      exfalso.
      apply carrier_type_cross_records in Hcross
        as (cr & x & y & Hx & Hy & Hkx & Hky & Hcx & Hcy & Hax & Hay & Hne).
      destruct (Hrows x Hx Hkx Hax) as [[? ?]|[? ?]];
        destruct (Hrows y Hy Hky Hay) as [[? ?]|[? ?]]; congruence.
Qed.

Lemma carrier_account_type_by_carrier_groups_witness :
  accountType (classified_in (working_set two_carriers)
                 (record "North" "Alice" "Homeowners" "CarrierA" "P1"))
    = Some "Cross-Sold" ∧
  carrierAccountType (classified_in (working_set two_carriers)
                        (record "North" "Alice" "Homeowners" "CarrierA" "P1"))
    = Some "Monoline".
Proof.
  refine (proj2 (proj2 (carrier_account_type_by_carrier_groups two_carriers_table
            _ _ 0 _ "Alice" _ _ _ _)) "CarrierA" "CarrierB" _ _ _ _).
  - vm_compute. reflexivity.
  - show_two_customers 0%nat 2%nat.
  - by_evaluation.
  - reflexivity.
  - discriminate.
  - intros r Hr Hk _. apply list_elem_of_In in Hr. vm_compute in Hr.
    destruct Hr as [<-|[<-|[<-|[]]]]; try discriminate Hk; auto.
  - exists (record "North" "Alice" "Homeowners" "CarrierA" "P1").
    split; [by_evaluation|done].
  - exists (record "North" "Alice" "Private Passenger Auto" "CarrierB" "P2").
    split; [by_evaluation|done].
Defined.

(** ** Rejection *)

(** The program stops with the message of line 80 exactly when some field
    of the alias table has none of its names among the stripped headers of
    the table. *)
Theorem load_is_rejected_iff_a_field_is_unnamed t :
  run t = Error "Missing one or more required columns." ↔
  ∃ e, e ∈ column_map ∧ ∀ v, v ∈ e.2 → v ∉ strip <$> headers t.
Proof.
  unfold run.
  destruct (has_required _) eqn:Hreq.
  - split.
    + destruct (ambiguous _); [done|]. by destruct (classify_frame _).
    + intros (e & He & Hnone). exfalso.
      rewrite has_required_spec in Hreq.
      assert (e.1 ∈ normalize_columns (strip <$> headers t)) as Hin.
      { apply Hreq, required_cols_canonical. by exists e. }
      apply canonical_present_iff in Hin as (v & Hv & Hvin); [|done].
      by apply (Hnone v).
  - split; [|done]. intros _.
    destruct (decide (Forall (λ col, col ∈ normalize_columns (strip <$> headers t))
                        required_cols)) as [Hall|Hnot].
    { rewrite Forall_forall in Hall. apply has_required_spec in Hall.
      congruence. }
    apply not_Forall_Exists in Hnot; [|apply _].
    apply Exists_exists in Hnot as (col & Hcol & Hout).
    apply required_cols_canonical in Hcol as (e & He & ->).
    exists e. split; [done|]. intros v Hv Hvin. apply Hout.
    apply canonical_present_iff; [done|]. by exists v.
Qed.

(** ** Counts and percentages with two or more customers *)

(** When the program returns a frame with two or more customers, the counts
    of the selected-division view take every customer of the division once:
    at agency level and at carrier level, the Monoline and Cross-Sold counts
    add up to the number of distinct customers. *)
Theorem view_counts_take_each_customer_once t df summary d :
  run t = Ok df summary →
  two_customers df →
  (total_monoline (agency_df d df) + total_cross_sold (agency_df d df))%nat
  = total_clients (agency_df d df) ∧
  (total_carrier_mono (agency_df d df) + total_carrier_cross (agency_df d df))%nat
  = total_clients (agency_df d df).
Proof.
  intros Hrun Htwo.
  destruct (run_Ok_two_customers _ _ _ Hrun Htwo) as [-> _].
  apply view_counts_add_up_groups.
Qed.

Lemma view_counts_take_each_customer_once_witness :
  (total_monoline (agency_df "North" (add_account_types (working_set (records_of sample_table))))
   + total_cross_sold (agency_df "North" (add_account_types (working_set (records_of sample_table)))))%nat
  = total_clients (agency_df "North" (add_account_types (working_set (records_of sample_table)))).
Proof.
  refine (proj1 (view_counts_take_each_customer_once sample_table
            (add_account_types (working_set (records_of sample_table)))
            (agency_summary (add_account_types (working_set (records_of sample_table))))
            "North" _ _)).
  - vm_compute. reflexivity.
  - show_two_customers 0%nat 2%nat.
Defined.

(** When the program returns a frame with two or more customers, the two
    counts of a summary row are counts of rows: together they are the number
    of the division's rows that carry a customer name, which is never less
    than the number of distinct customers. *)
Theorem summary_counts_add_up_to_named_rows t df summary row :
  run t = Ok df summary →
  two_customers df →
  row ∈ summary →
  (Monoline row + Cross_Sold row)%nat
  = length (filter (λ ir, is_Some (customerName (policy ir.2)))
              (agency_df (Division row) df)) ∧
  (Total_Clients row ≤ Monoline row + Cross_Sold row)%nat.
Proof.
  intros Hrun Htwo.
  destruct (run_Ok_two_customers _ _ _ Hrun Htwo) as [-> ->].
  apply summary_counts_named_rows_groups.
Qed.

Lemma summary_counts_add_up_to_named_rows_witness :
  (Total_Clients north_of_ten ≤ Monoline north_of_ten + Cross_Sold north_of_ten)%nat.
Proof.
  eapply (summary_counts_add_up_to_named_rows
            {| headers := required_cols;
               body := (λ r, [division r; customerName r; lineOfBusiness r;
                              carrier r; policyNumber r]) <$> ten_clients |}
            _ _ north_of_ten).
  - vm_compute. reflexivity.
  - show_two_customers 0%nat 1%nat.
  - by_evaluation.
Defined.

(** When the program returns a frame with two or more customers, a summary
    row with zero clients (a division whose rows all lack a customer name)
    has zero Monoline, zero Cross-Sold, and NaN in both percentage columns:
    the percentages are not guarded against zero clients. *)
Theorem zero_clients_give_nan t df summary row :
  run t = Ok df summary →
  two_customers df →
  row ∈ summary →
  Total_Clients row = 0%nat →
  Monoline row = 0%nat ∧ Cross_Sold row = 0%nat ∧
  pct_Monoline row = PrimFloat.nan ∧ pct_Cross_Sold row = PrimFloat.nan.
Proof.
  intros Hrun Htwo.
  destruct (run_Ok_two_customers _ _ _ Hrun Htwo) as [-> ->].
  apply zero_clients_row.
Qed.

Lemma zero_clients_give_nan_witness :
  pct_Cross_Sold (summarise "West"
    [(3%nat, {| policy := {| division := Some "West"; customerName := None;
                             lineOfBusiness := Some "Homeowners";
                             carrier := Some "CarrierA";
                             policyNumber := Some "P4" |};
                accountType := None; carrierAccountType := None |})])
  = PrimFloat.nan.
Proof.
  eapply (zero_clients_give_nan blank_name_table).
  - vm_compute. reflexivity.
  - show_two_customers 0%nat 1%nat.
  - by_evaluation.
  - reflexivity.
Defined.

(** When the program returns a frame with two or more customers, a row
    without a customer name has no account type at either level, and a row
    with a customer name has Monoline or Cross-Sold at both. *)
Theorem account_types_follow_customer_name t df summary i c :
  run t = Ok df summary →
  two_customers df →
  (i, c) ∈ df →
  (customerName (policy c) = None →
     accountType c = None ∧ carrierAccountType c = None) ∧
  (is_Some (customerName (policy c)) →
     (accountType c = Some "Monoline" ∨ accountType c = Some "Cross-Sold") ∧
     (carrierAccountType c = Some "Monoline"
      ∨ carrierAccountType c = Some "Cross-Sold")).
Proof.
  intros Hrun Htwo Hin.
  destruct (run_Ok_two_customers _ _ _ Hrun Htwo) as [-> _].
  destruct (classified_types_by_name _ _ Hin) as [(Hn & ? & ?)|(Hn & ? & ?)];
    simpl in *.
  - split; [done|]. rewrite Hn. by intros [? ?].
  - split; [|done]. intros Hnone. rewrite Hnone in Hn. by destruct Hn.
Qed.

Lemma account_types_follow_customer_name_witness :
  accountType alice_home = Some "Monoline" ∨ accountType alice_home = Some "Cross-Sold".
Proof.
  eapply (account_types_follow_customer_name sample_table _ _ 0 alice_home).
  - vm_compute. reflexivity.
  - show_two_customers 0%nat 2%nat.
  - by_evaluation.
  - by eexists.
Defined.

(** ** Customers do not influence one another *)

Lemma two_labels_equal (a b : string) :
  (a = Cross_Sold_s ∨ a = Monoline_s) → (b = Cross_Sold_s ∨ b = Monoline_s) →
  (a = Cross_Sold_s ↔ b = Cross_Sold_s) → a = b.
Proof.
  intros [-> | ->] [-> | ->] [H1 H2]; try done.
  - symmetry. by apply H1.
  - by apply H2.
Qed.

(** The classification of a customer does not depend on the records of any
    other customer.  If the program classifies a table and also the table
    without the records of another customer, and the second frame still
    holds two or more customers, then the rows of the customer carry the
    same account type and the same carrier account type in both. *)
Theorem other_customers_do_not_matter records k k' df df' i c i' c' :
  k ≠ k' →
  classify_frame (working_set records) = Some df →
  classify_frame (working_set (filter (λ r, customerName r ≠ Some k') records))
    = Some df' →
  two_customers df' →
  (i, c) ∈ df → (i', c') ∈ df' →
  customerName (policy c) = Some k → customerName (policy c') = Some k →
  accountType c = accountType c' ∧ carrierAccountType c = carrierAccountType c'.
Proof.
  intros Hne Hdf Hdf' Htwo' Hin Hin' Hk Hk'.
  set (records' := filter (λ r, customerName r ≠ Some k') records) in *.
  assert (∀ r, r ∈ records' → r ∈ records) as Hsub.
  { intros r. unfold records'. rewrite list_elem_of_filter. tauto. }
  assert (∀ r, r ∈ records → customerName r = Some k → r ∈ records') as Hsup.
  { intros r Hr Hkr. unfold records'. apply list_elem_of_filter.
    split; [congruence|done]. }
  assert (df' = add_account_types (working_set records')) as ->
    by by apply classify_frame_two_customers.
  assert (df = add_account_types (working_set records)) as ->.
  { rewrite classify_frame_groups in Hdf; [congruence|].
    destruct Htwo' as (i1 & c1 & k1 & i2 & c2 & k2 & H1 & H2 & Hk1 & Hk2 & Hk12).
    apply elem_of_classified in H1 as [r1 [[Hl1 Ha1]%elem_of_working_set ->]].
    apply elem_of_classified in H2 as [r2 [[Hl2 Ha2]%elem_of_working_set ->]].
    simpl in *.
    apply list_elem_of_lookup_2, Hsub, list_elem_of_lookup_1 in Hl1 as [j1 Hj1].
    apply list_elem_of_lookup_2, Hsub, list_elem_of_lookup_1 in Hl2 as [j2 Hj2].
    apply (two_keys_two_groups customerName _ (j1, r1) (j2, r2) k1 k2);
      try done; by apply elem_of_working_set. }
  apply elem_of_classified in Hin as [r [_ ->]].
  apply elem_of_classified in Hin' as [r' [_ ->]].
  simpl in *. rewrite Hk, Hk'. simpl. split; f_equal.
  - apply two_labels_equal; [apply account_type_of_cases..|].
    rewrite !account_type_cross_records.
    split; intros (r1 & r2 & Hr1 & Hr2 & Hk1 & Hk2 & Hrest);
      exists r1, r2; split_and?; try tauto; auto.
  - apply two_labels_equal; [apply carrier_account_type_of_cases..|].
    rewrite !carrier_type_cross_records.
    split; intros (cr & r1 & r2 & Hr1 & Hr2 & Hk1 & Hk2 & Hrest);
      exists cr, r1, r2; split_and?; try tauto; auto.
Qed.

Lemma other_customers_do_not_matter_witness :
  accountType alice_home = accountType alice_home ∧
  carrierAccountType alice_home = carrierAccountType alice_home.
Proof.
  eapply (other_customers_do_not_matter
            (record "North" "Dan" "Homeowners" "CarrierB" "P5"
             :: records_of sample_table) "Alice" "Dan" _ _ 1 alice_home 0 alice_home).
  - discriminate.
  - vm_compute. reflexivity.
  - vm_compute. reflexivity.
  - show_two_customers 0%nat 2%nat.
  - by_evaluation.
  - by_evaluation.
  - reflexivity.
  - reflexivity.
Defined.
